(** * chip8-js: a shallow embedding of the CHIP-8 interpreter

    The development follows the three script files of the repository:
    [renderer.js] (the 64x32 display and its pixel toggle), [keyboard.js]
    (key state and the one-shot "next key press" hook) and [cpu.js] (the
    machine state, the fetch loop [cycle] and the opcode table
    [executeInstruction]).

    Numbers are modelled as [Z].  Every integer the interpreter computes
    stays far below 2^31 except the address register, which is a plain
    JavaScript number; the bit operators of the source ([&], [|], [^],
    [<<], [>>]) therefore agree with [Z.land], [Z.lor], [Z.lxor],
    [Z.shiftl] and [Z.shiftr] on all arguments that occur.  The two
    [Uint8Array]s are lists of [Z] whose stores reduce modulo 256. *)

From Stdlib Require Import ZArith Lia Bool.
From stdpp Require Import base list gmap.

Local Open Scope Z_scope.

(** ** JavaScript values *)

(** [pc] and the entries of [stack] are JavaScript numbers, but popping an
    empty array yields [undefined], and adding to [undefined] yields
    [NaN]. *)
Inductive jsnum : Type :=
  | Num (n : Z)
  | NaN
  | Undefined.

(** [a + k] for a numeric constant [k]. *)
Definition js_add (a : jsnum) (k : Z) : jsnum :=
  match a with
  | Num n => Num (n + k)
  | NaN | Undefined => NaN
  end.

(** ** Typed arrays ([Uint8Array]) *)

(** [a[idx]]: [None] stands for [undefined], the result of reading outside
    the array. *)
Definition typed_get (a : list Z) (idx : Z) : option Z :=
  if 0 <=? idx then a !! Z.to_nat idx else None.

(** [a[k]] where the index is [pc]-like: [NaN] and [undefined] name no
    element. *)
Definition typed_get_js (a : list Z) (k : jsnum) : option Z :=
  match k with
  | Num n => typed_get a n
  | NaN | Undefined => None
  end.

(** Conversion of an array read to an integer: [undefined] becomes 0, both
    under the bit operators (ToInt32) and when stored into a [Uint8Array]
    (ToNumber gives NaN, which is stored as 0). *)
Definition to_int (o : option Z) : Z := default 0 o.

(** [a[idx] = val]: the value is reduced modulo 256; a store outside the
    array is dropped. *)
Definition typed_set (a : list Z) (idx val : Z) : list Z :=
  if 0 <=? idx then <[Z.to_nat idx := val mod 256]> a else a.

(** ** renderer.js *)

Definition cols : Z := 64.
Definition rows : Z := 32.

(** [display] is a JavaScript [Array]: a partial map from indices to
    numbers.  [new Array(cols * rows)] has only holes, and a store past
    the end (or at a negative index) adds an entry. *)
Record Renderer : Type := mkRenderer {
  display : gmap Z Z
}.

Definition new_Renderer : Renderer := mkRenderer ∅.

(** [setPixel(x, y)] returns the renderer after the toggle and the boolean
    [!this.display[pixel]]. *)
Definition setPixel (x y : Z) (r : Renderer) : Renderer * bool :=
  let x := if x >? cols then x - cols
           else if x <? 0 then x + cols else x in
  let y := if y >? rows then y - rows
           else if y <? 0 then y + rows else y in
  let pixel := x + y * cols in
  let val := Z.lxor (to_int (display r !! pixel)) 1 in
  (mkRenderer (<[pixel := val]> (display r)), val =? 0).

Definition clear (r : Renderer) : Renderer := mkRenderer ∅.

(** [render] paints the canvas from [display] and leaves the renderer's
    own state as it is. *)
Definition render (r : Renderer) : Renderer := r.

(** ** keyboard.js *)

(** [keymap[which]]: the CHIP-8 key of a browser key code, [None] for
    [undefined]. *)
Definition keymap (which : Z) : option Z :=
  match which with
  | 49 => Some 0x1
  | 50 => Some 0x2
  | 51 => Some 0x3
  | 52 => Some 0xc
  | 81 => Some 0x4
  | 87 => Some 0x5
  | 69 => Some 0x6
  | 82 => Some 0xd
  | 65 => Some 0x7
  | 83 => Some 0x8
  | 68 => Some 0x9
  | 70 => Some 0xe
  | 90 => Some 0xa
  | 88 => Some 0x0
  | 67 => Some 0xb
  | 86 => Some 0xf
  | _ => None
  end.

(** [keysPressed] is an object used as a map; its property names are the
    CHIP-8 keys and, for an unmapped key code, the name [undefined]
    (the key [None]).  [onNextKeyPress] is [null] ([None]) or the closure
    that opcode Fx0A installs; that closure differs from one installation
    to the next only in the register index [x] it captured, so it is
    represented by that index. *)
Record Keyboard : Type := mkKeyboard {
  keysPressed : gmap (option Z) bool;
  onNextKeyPress : option Z
}.

Definition new_Keyboard : Keyboard := mkKeyboard ∅ None.

Definition isKeyPressed (keyCode : Z) (k : Keyboard) : option bool :=
  keysPressed k !! Some keyCode.

(** Truthiness of what [isKeyPressed] returns. *)
Definition truthy_flag (o : option bool) : bool := default false o.

(** Truthiness of a key: [undefined] and the number 0 are falsy. *)
Definition truthy_key (key : option Z) : bool :=
  match key with
  | Some k => negb (k =? 0)
  | None => false
  end.

Definition onKeyUp (which : Z) (k : Keyboard) : Keyboard :=
  mkKeyboard (<[keymap which := false]> (keysPressed k)) (onNextKeyPress k).

(** ** The tone source *)

(** Modelled from the spec: speaker.js is imported by chip8.js but is not
    among the source files.  The spec gives its contract as
    [start(frequency)] and [stop()]; the model records the frequency being
    played, if any. *)
Record Speaker : Type := mkSpeaker {
  tone : option Z
}.

Definition play (frequency : Z) (sp : Speaker) : Speaker :=
  mkSpeaker (Some frequency).

Definition stop (sp : Speaker) : Speaker := mkSpeaker None.

(** ** cpu.js: the machine state *)

Record CPU : Type := mkCPU {
  renderer : Renderer;
  keyboard : Keyboard;
  speaker : Speaker;
  memory : list Z;
  v : list Z;
  i : Z;
  delayTimer : Z;
  soundTimer : Z;
  pc : jsnum;
  stack : list jsnum;
  paused : bool;
  speed : Z
}.

Definition new_CPU (r : Renderer) (k : Keyboard) (sp : Speaker) : CPU :=
  {| renderer := r; keyboard := k; speaker := sp;
     memory := replicate 4096 0;
     v := replicate 16 0;
     i := 0;
     delayTimer := 0;
     soundTimer := 0;
     pc := Num 0x200;
     stack := [];
     paused := false;
     speed := 10 |}.

(** Field updates. *)
Definition with_renderer (r : Renderer) (s : CPU) : CPU :=
  mkCPU r (keyboard s) (speaker s) (memory s) (v s) (i s) (delayTimer s)
        (soundTimer s) (pc s) (stack s) (paused s) (speed s).
Definition with_keyboard (k : Keyboard) (s : CPU) : CPU :=
  mkCPU (renderer s) k (speaker s) (memory s) (v s) (i s) (delayTimer s)
        (soundTimer s) (pc s) (stack s) (paused s) (speed s).
Definition with_speaker (sp : Speaker) (s : CPU) : CPU :=
  mkCPU (renderer s) (keyboard s) sp (memory s) (v s) (i s) (delayTimer s)
        (soundTimer s) (pc s) (stack s) (paused s) (speed s).
Definition with_memory (m : list Z) (s : CPU) : CPU :=
  mkCPU (renderer s) (keyboard s) (speaker s) m (v s) (i s) (delayTimer s)
        (soundTimer s) (pc s) (stack s) (paused s) (speed s).
Definition with_v (regs : list Z) (s : CPU) : CPU :=
  mkCPU (renderer s) (keyboard s) (speaker s) (memory s) regs (i s)
        (delayTimer s) (soundTimer s) (pc s) (stack s) (paused s) (speed s).
Definition with_i (a : Z) (s : CPU) : CPU :=
  mkCPU (renderer s) (keyboard s) (speaker s) (memory s) (v s) a
        (delayTimer s) (soundTimer s) (pc s) (stack s) (paused s) (speed s).
Definition with_delayTimer (t : Z) (s : CPU) : CPU :=
  mkCPU (renderer s) (keyboard s) (speaker s) (memory s) (v s) (i s) t
        (soundTimer s) (pc s) (stack s) (paused s) (speed s).
Definition with_soundTimer (t : Z) (s : CPU) : CPU :=
  mkCPU (renderer s) (keyboard s) (speaker s) (memory s) (v s) (i s)
        (delayTimer s) t (pc s) (stack s) (paused s) (speed s).
Definition with_pc (p : jsnum) (s : CPU) : CPU :=
  mkCPU (renderer s) (keyboard s) (speaker s) (memory s) (v s) (i s)
        (delayTimer s) (soundTimer s) p (stack s) (paused s) (speed s).
Definition with_stack (st : list jsnum) (s : CPU) : CPU :=
  mkCPU (renderer s) (keyboard s) (speaker s) (memory s) (v s) (i s)
        (delayTimer s) (soundTimer s) (pc s) st (paused s) (speed s).
Definition with_paused (b : bool) (s : CPU) : CPU :=
  mkCPU (renderer s) (keyboard s) (speaker s) (memory s) (v s) (i s)
        (delayTimer s) (soundTimer s) (pc s) (stack s) b (speed s).

(** [this.v[r]] read as a number.  The register index is a nibble of the
    opcode (or the constant 0xf, or a loop counter bounded by a nibble), so
    with sixteen registers the read is always inside the array. *)
Definition reg (s : CPU) (r : Z) : Z := to_int (typed_get (v s) r).

(** [this.v[r] = val]. *)
Definition set_reg (r val : Z) (s : CPU) : CPU :=
  with_v (typed_set (v s) r val) s.

(** [this.memory[a]] read as a number ([undefined] counts as 0 wherever the
    source uses the value). *)
Definition mem (s : CPU) (a : Z) : Z := to_int (typed_get (memory s) a).

(** [this.memory[a] = val]. *)
Definition set_mem (a val : Z) (s : CPU) : CPU :=
  with_memory (typed_set (memory s) a val) s.

(** [this.stack.push(p)] appends; [this.stack.pop()] removes and returns
    the last element, or returns [undefined] on the empty array. *)
Definition push (p : jsnum) (st : list jsnum) : list jsnum := st ++ [p].

Definition pop (st : list jsnum) : jsnum * list jsnum :=
  match last st with
  | Some p => (p, removelast st)
  | None => (Undefined, st)
  end.

(** ** cpu.js: loading *)

(** The built-in hexadecimal font, five bytes per glyph. *)
Definition sprites : list Z :=
  [ 0xF0; 0x90; 0x90; 0x90; 0xF0;
    0x20; 0x60; 0x20; 0x20; 0x70;
    0xF0; 0x10; 0xF0; 0x80; 0xF0;
    0xF0; 0x10; 0xF0; 0x10; 0xF0;
    0x90; 0x90; 0xF0; 0x10; 0x10;
    0xF0; 0x80; 0xF0; 0x10; 0xF0;
    0xF0; 0x80; 0xF0; 0x90; 0xF0;
    0xF0; 0x10; 0x20; 0x40; 0x40;
    0xF0; 0x90; 0xF0; 0x90; 0xF0;
    0xF0; 0x90; 0xF0; 0x10; 0xF0;
    0xF0; 0x90; 0xF0; 0x90; 0x90;
    0xE0; 0x90; 0xE0; 0x90; 0xE0;
    0xF0; 0x80; 0x80; 0x80; 0xF0;
    0xE0; 0x90; 0x90; 0x90; 0xE0;
    0xF0; 0x80; 0xF0; 0x80; 0xF0;
    0xF0; 0x80; 0xF0; 0x80; 0x80 ].

(** [for (i = 0; i < bytes.length; i++) this.memory[base + i] = bytes[i]] *)
Fixpoint store_from (base : Z) (bytes : list Z) (s : CPU) : CPU :=
  match bytes with
  | [] => s
  | b :: rest => store_from (base + 1) rest (set_mem base b s)
  end.

Definition loadSpritesIntoMemory (s : CPU) : CPU := store_from 0 sprites s.

Definition loadProgramIntoMemory (program : list Z) (s : CPU) : CPU :=
  store_from 0x200 program s.

(** The machine as chip8.js sets it up, once the ROM has arrived. *)
Definition boot (program : list Z) : CPU :=
  loadProgramIntoMemory program
    (loadSpritesIntoMemory (new_CPU new_Renderer new_Keyboard (mkSpeaker None))).

(** ** cpu.js: timers and sound *)

Definition updateTimers (s : CPU) : CPU :=
  let s := if delayTimer s >? 0
           then with_delayTimer (delayTimer s - 1) s else s in
  if soundTimer s >? 0 then with_soundTimer (soundTimer s - 1) s else s.

Definition playSound (s : CPU) : CPU :=
  if soundTimer s >? 0
  then with_speaker (play 440 (speaker s)) s
  else with_speaker (stop (speaker s)) s.

(** ** cpu.js: the opcode table *)

(** How a call ends: normally, with the new state, or with the exception
    [new Error("Unknown opcode " + opcode)]. *)
Inductive completion : Type :=
  | Return (s : CPU)
  | Throw (opcode : Z).

Definition bind (c : completion) (k : CPU → completion) : completion :=
  match c with
  | Return s => k s
  | Throw op => Throw op
  end.

(** One column of the sprite loop: the loop state is the machine and the
    local [sprite], which is shifted left after each column. *)
Definition draw_col (x y row : Z) (st : CPU * Z) (col : Z) : CPU * Z :=
  let '(s, sprite) := st in
  let s' :=
    if Z.land sprite 0x80 >? 0 then
      let '(r, erased) :=
        setPixel (reg s x + col) (reg s y + row) (renderer s) in
      let s1 := with_renderer r s in
      if erased then set_reg 0xf 1 s1 else s1
    else s in
  (s', sprite ≪ 1).

(** One row of the sprite loop. *)
Definition draw_row (x y : Z) (s : CPU) (row : Z) : CPU :=
  let width := 8 in
  let sprite := mem s (i s + row) in
  fst (foldl (draw_col x y row) (s, sprite) (seqZ 0 width)).

(** Opcode Dxyn. *)
Definition draw (opcode x y : Z) (s : CPU) : CPU :=
  let height := Z.land opcode 0xf in
  foldl (draw_row x y) (set_reg 0xf 0 s) (seqZ 0 height).

(** Opcode Fx55: [for (r = 0; r <= x; r++) memory[i + r] = v[r]]. *)
Definition store_registers (x : Z) (s : CPU) : CPU :=
  foldl (λ s r, set_mem (i s + r) (reg s r) s) s (seqZ 0 (x + 1)).

(** Opcode Fx65: [for (r = 0; r <= x; r++) v[r] = memory[i + r]]. *)
Definition load_registers (x : Z) (s : CPU) : CPU :=
  foldl (λ s r, set_reg r (mem s (i s + r)) s) s (seqZ 0 (x + 1)).

(** [skip_if b]: [if (b) this.pc += 2]. *)
Definition skip_if (b : bool) (s : CPU) : CPU :=
  if b then with_pc (js_add (pc s) 2) s else s.

(** [executeInstruction(opcode)].  [rand] is the value that
    [Math.floor(Math.random() * 0xff)] yields if the instruction draws
    one. *)
Definition executeInstruction (opcode rand : Z) (s0 : CPU) : completion :=
  let s := with_pc (js_add (pc s0) 2) s0 in
  let x := Z.land opcode 0x0f00 ≫ 8 in
  let y := Z.land opcode 0x00f0 ≫ 4 in
  match Z.land opcode 0xf000 with
  | 0x0000 =>
      Return
        match opcode with
        | 0x00e0 => with_renderer (clear (renderer s)) s
        | 0x00ee =>
            let '(top, rest) := pop (stack s) in
            with_pc top (with_stack rest s)
        | _ => s
        end
  | 0x1000 => Return (with_pc (Num (Z.land opcode 0xfff)) s)
  | 0x2000 =>
      Return (with_pc (Num (Z.land opcode 0xfff))
                (with_stack (push (pc s) (stack s)) s))
  | 0x3000 => Return (skip_if (reg s x =? Z.land opcode 0xff) s)
  | 0x4000 => Return (skip_if (negb (reg s x =? Z.land opcode 0xff)) s)
  | 0x5000 => Return (skip_if (reg s x =? reg s y) s)
  | 0x6000 => Return (set_reg x (Z.land opcode 0xff) s)
  | 0x7000 => Return (set_reg x (reg s x + Z.land opcode 0xff) s)
  | 0x8000 =>
      Return
        match Z.land opcode 0xf with
        | 0x0 => set_reg x (reg s y) s
        | 0x1 => set_reg x (Z.lor (reg s x) (reg s y)) s
        | 0x2 => set_reg x (Z.land (reg s x) (reg s y)) s
        | 0x3 => set_reg x (Z.lxor (reg s x) (reg s y)) s
        | 0x4 =>
            (* the value of [this.v[x] += this.v[y]] is the sum itself, not
               the byte that the array keeps *)
            let sum := reg s x + reg s y in
            let s := set_reg x sum s in
            let s := set_reg 0xf 0 s in
            let s := if sum >? 0xff then set_reg 0xf 1 s else s in
            set_reg x sum s
        | 0x5 =>
            let s := set_reg 0xf 0 s in
            let s := if reg s x >? reg s y then set_reg 0xf 1 s else s in
            set_reg x (reg s x - reg s y) s
        | 0x6 =>
            let s := set_reg 0xf (Z.land (reg s x) 0x1) s in
            set_reg x (reg s x ≫ 1) s
        | 0x7 =>
            let s := set_reg 0xf 0 s in
            let s := if reg s y >? reg s x then set_reg 0xf 1 s else s in
            set_reg x (reg s y - reg s x) s
        | 0xe =>
            let s := set_reg 0xf (Z.land (reg s x) 0x80) s in
            set_reg x (reg s x ≪ 1) s
        | _ => s
        end
  | 0x9000 => Return (skip_if (negb (reg s x =? reg s y)) s)
  | 0xa000 => Return (with_i (Z.land opcode 0xfff) s)
  | 0xb000 => Return (with_pc (Num (Z.land opcode 0xfff + reg s 0)) s)
  | 0xc000 => Return (set_reg x (Z.land rand (Z.land opcode 0xff)) s)
  | 0xd000 => Return (draw opcode x y s)
  | 0xe000 =>
      Return
        match Z.land opcode 0xff with
        | 0x9e =>
            skip_if (truthy_flag (isKeyPressed (reg s x) (keyboard s))) s
        | 0xa1 =>
            skip_if (negb (truthy_flag (isKeyPressed (reg s x) (keyboard s)))) s
        | _ => s
        end
  | 0xf000 =>
      Return
        match Z.land opcode 0xff with
        | 0x07 => set_reg x (delayTimer s) s
        | 0x0a =>
            let s := with_paused true s in
            with_keyboard (mkKeyboard (keysPressed (keyboard s)) (Some x)) s
        | 0x15 => with_delayTimer (reg s x) s
        | 0x18 => with_soundTimer (reg s x) s
        | 0x1e => with_i (i s + reg s x) s
        | 0x29 => with_i (reg s x * 5) s
        | 0x33 =>
            (* [parseInt] of a quotient of small non-negative integers is
               its integer part *)
            let s := set_mem (i s) (reg s x / 100) s in
            let s := set_mem (i s + 1) (reg s x mod 100 / 10) s in
            set_mem (i s + 2) (reg s x mod 10) s
        | 0x55 => store_registers x s
        | 0x65 => load_registers x s
        | _ => s
        end
  | _ => Throw opcode
  end.

(** ** cpu.js: the cycle *)

(** [(this.memory[this.pc] << 8) | this.memory[this.pc + 1]] *)
Definition fetch (s : CPU) : Z :=
  Z.lor (to_int (typed_get_js (memory s) (pc s)) ≪ 8)
        (to_int (typed_get_js (memory s) (js_add (pc s) 1))).

(** One turn of the instruction loop; [rand] as in [executeInstruction]. *)
Definition cycle_step (rand : Z) (s : CPU) : completion :=
  if paused s then Return s else executeInstruction (fetch s) rand s.

(** The [for] loop of [cycle].  [rand k] is the random value available to
    the [k]-th turn.  An exception leaves the loop at once. *)
Definition instruction_loop (rand : Z → Z) (s : CPU) : completion :=
  foldl (λ c k, bind c (cycle_step (rand k))) (Return s) (seqZ 0 (speed s)).

(** [cycle()] *)
Definition cycle (rand : Z → Z) (s : CPU) : completion :=
  bind (instruction_loop rand s)
       (λ s,
          let s := if paused s then s else updateTimers s in
          let s := playSound s in
          Return (with_renderer (render (renderer s)) s)).

(** ** keyboard.js: key events, with the closure of cpu.js *)

(** The body of the closure installed by Fx0A, bound to the machine:
    [this.v[x] = key; this.paused = false]. *)
Definition nextKeyPress (x key : Z) (s : CPU) : CPU :=
  with_paused false (set_reg x key s).

(** [onKeyDown(event)], for [event.which = which].  The handler belongs to
    the keyboard, and the closure it calls mutates the machine, so it is
    stated on the machine that owns the keyboard.  [parseInt(key)] of a
    truthy key is the key itself. *)
Definition onKeyDown (which : Z) (s : CPU) : CPU :=
  let key := keymap which in
  let kb := keyboard s in
  let s := with_keyboard
             (mkKeyboard (<[key := true]> (keysPressed kb)) (onNextKeyPress kb))
             s in
  match onNextKeyPress (keyboard s) with
  | Some x =>
      if truthy_key key then
        let s := nextKeyPress x (to_int key) s in
        with_keyboard (mkKeyboard (keysPressed (keyboard s)) None) s
      else s
  | None => s
  end.

(** [onKeyUp(event)] on the machine that owns the keyboard. *)
Definition keyUp (which : Z) (s : CPU) : CPU :=
  with_keyboard (onKeyUp which (keyboard s)) s.

(** Running [n] calls of [cycle] in a row, as the driver of chip8.js does
    between key events. *)
Fixpoint cycles (n : nat) (rand : Z → Z) (s : CPU) : completion :=
  match n with
  | O => Return s
  | S n' => bind (cycle rand s) (cycles n' rand)
  end.

(** ** Vocabulary for the statements *)

(** The instruction word written [gxyn] in hexadecimal. *)
Definition instr (g x y n : Z) : Z := g * 0x1000 + x * 0x100 + y * 0x10 + n.

Definition nibble (k : Z) : Prop := 0 ≤ k < 16.

(** The fields that [executeInstruction] extracts from [instr g x y n] are
    the four nibbles. *)
Definition decodes (g x y n : Z) : bool :=
  let op := instr g x y n in
  (Z.land op 0xf000 =? g * 0x1000) && (Z.land op 0x0f00 ≫ 8 =? x)
  && (Z.land op 0x00f0 ≫ 4 =? y) && (Z.land op 0xf =? n)
  && (Z.land op 0xff =? y * 0x10 + n)
  && (Z.land op 0xfff =? x * 0x100 + y * 0x10 + n).

(** What the two [Uint8Array]s guarantee by construction. *)
Definition byte (z : Z) : Prop := 0 ≤ z < 256.

Definition arrays_ok (s : CPU) : Prop :=
  length (v s) = 16%nat ∧ length (memory s) = 4096%nat ∧
  Forall byte (v s) ∧ Forall byte (memory s).

(** The machine after the [this.pc += 2] that opens [executeInstruction]. *)
Definition advance (s : CPU) : CPU := with_pc (js_add (pc s) 2) s.

(** The display index that [setPixel(x, y)] toggles. *)
Definition pixel_index (x y : Z) : Z :=
  let x := if x >? cols then x - cols
           else if x <? 0 then x + cols else x in
  let y := if y >? rows then y - rows
           else if y <? 0 then y + rows else y in
  x + y * cols.

(** The value of [display[p]] as the source uses it: a hole counts as 0. *)
Definition pixel (d : gmap Z Z) (p : Z) : Z := to_int (d !! p).

(** [display[p] ^= 1] *)
Definition flip (d : gmap Z Z) (p : Z) : gmap Z Z :=
  <[p := Z.lxor (pixel d p) 1]> d.

(** A run of toggles on a display, with the flag "some toggle erased". *)
Definition blit (ps : list Z) (df : gmap Z Z * bool) : gmap Z Z * bool :=
  foldl (λ df p, (flip df.1 p, df.2 || (Z.lxor (pixel df.1 p) 1 =? 0)))
        df ps.

(** Bit [col] (from the left) of a sprite row. *)
Definition sprite_bit (sprite col : Z) : bool :=
  Z.land (sprite ≪ col) 0x80 >? 0.

(** The indices toggled by one sprite row placed at [(vx, vy + row)],
    columns taken from the list [cl] while [sprite] is shifted. *)
Fixpoint row_points (vx vy row sprite : Z) (cl : list Z) : list Z :=
  match cl with
  | [] => []
  | col :: rest =>
      (if Z.land sprite 0x80 >? 0
       then [pixel_index (vx + col) (vy + row)] else [])
      ++ row_points vx vy row (sprite ≪ 1) rest
  end.

(** The indices toggled by [Dxyn], in order, for the rows in [rl]. *)
Definition sprite_points (s : CPU) (x y : Z) (rl : list Z) : list Z :=
  mjoin ((λ row, row_points (reg s x) (reg s y) row (mem s (i s + row))
                            (seqZ 0 8)) <$> rl).

(** The machine [s] with another display and another flag register. *)
Definition with_blit (s : CPU) (df : gmap Z Z * bool) : CPU :=
  set_reg 0xf (if df.2 then 1 else 0) (with_renderer (mkRenderer df.1) s).

(** How many times (modulo 2) the index [p] occurs in [ps]. *)
Fixpoint odd_hits (p : Z) (ps : list Z) : bool :=
  match ps with
  | [] => false
  | q :: rest => xorb (q =? p) (odd_hits p rest)
  end.

(** [render()]: the origins of the [scale] by [scale] squares that the loop
    over [i < cols * rows] fills, in loop order.  [scale] is the argument
    of the constructor (10 in chip8.js); a cell is painted when
    [display[i]] is truthy. *)
Definition fillRects (scale : Z) (r : Renderer) : list (Z * Z) :=
  omap (λ k, if negb (pixel (display r) k =? 0)
             then Some (k mod cols * scale, k / cols * scale) else None)
       (seqZ 0 (cols * rows)).



(** * Properties *)

(** ** Instruction words *)

Lemma forallb_nibble (p : Z → bool) :
  forallb p (seqZ 0 16) = true → ∀ k, nibble k → p k = true.
Proof.
  intros H k Hk. rewrite forallb_forall in H. apply H.
  apply list_elem_of_In, elem_of_seqZ. unfold nibble in Hk. lia.
Qed.

Lemma decodes_all :
  forallb (λ g, forallb (λ x, forallb (λ y, forallb (decodes g x y)
    (seqZ 0 16)) (seqZ 0 16)) (seqZ 0 16)) (seqZ 0 16) = true.
Proof. vm_compute. reflexivity. Qed.

Lemma decode g x y n :
  nibble g → nibble x → nibble y → nibble n →
  let op := instr g x y n in
  Z.land op 0xf000 = g * 0x1000 ∧ Z.land op 0x0f00 ≫ 8 = x ∧
  Z.land op 0x00f0 ≫ 4 = y ∧ Z.land op 0xf = n ∧
  Z.land op 0xff = y * 0x10 + n ∧ Z.land op 0xfff = x * 0x100 + y * 0x10 + n.
Proof.
  intros Hg Hx Hy Hn.
  pose proof (forallb_nibble _ (forallb_nibble _ (forallb_nibble _
    (forallb_nibble _ decodes_all g Hg) x Hx) y Hy) n Hn) as H.
  unfold decodes in H. cbv zeta.
  repeat (apply andb_prop in H; destruct H as [H ?]).
  repeat split; apply Z.eqb_eq; assumption.
Qed.

(** The top nibble of any integer selects one of the sixteen groups. *)
Lemma land_group op : ∃ g, nibble g ∧ Z.land op 0xf000 = g * 0x1000.
Proof.
  exists (Z.land (op ≫ 12) 15). split.
  - change 15 with (Z.ones 4). rewrite Z.land_ones by lia.
    apply Z.mod_pos_bound. lia.
  - rewrite <- (Z.shiftl_mul_pow2 _ 12) by lia.
    apply Z.bits_inj'. intros n Hn.
    change 0xf000 with (15 ≪ 12).
    rewrite Z.land_spec, !Z.shiftl_spec, Z.land_spec by lia.
    destruct (Z.ltb_spec n 12).
    + rewrite (Z.testbit_neg_r 15) by lia. by rewrite !andb_false_r.
    + rewrite Z.shiftr_spec by lia.
      replace (n - 12 + 12) with n by lia. reflexivity.
Qed.

Lemma nibble_cases k :
  nibble k →
  k = 0 ∨ k = 1 ∨ k = 2 ∨ k = 3 ∨ k = 4 ∨ k = 5 ∨ k = 6 ∨ k = 7 ∨
  k = 8 ∨ k = 9 ∨ k = 10 ∨ k = 11 ∨ k = 12 ∨ k = 13 ∨ k = 14 ∨ k = 15.
Proof. unfold nibble. lia. Qed.

(** [executeInstruction] never reaches its [default] branch. *)
Lemma executeInstruction_returns opcode rand s :
  ∃ s', executeInstruction opcode rand s = Return s'.
Proof.
  destruct (land_group opcode) as (g & Hg & Hgroup).
  unfold executeInstruction. rewrite Hgroup.
  destruct (nibble_cases g Hg) as
    [-> | [-> | [-> | [-> | [-> | [-> | [-> | [-> | [-> | [-> | [-> | [->
    | [-> | [-> | [-> | ->]]]]]]]]]]]]]]];
    cbv beta iota zeta delta [Z.mul Pos.mul]; eexists; reflexivity.
Qed.

(** ** Typed arrays and registers *)

Lemma typed_get_set_eq a idx val :
  0 ≤ idx → (Z.to_nat idx < length a)%nat →
  typed_get (typed_set a idx val) idx = Some (val mod 256).
Proof.
  intros H0 Hlt. unfold typed_get, typed_set.
  destruct (Z.leb_spec 0 idx); [|lia].
  by apply list_lookup_insert_eq.
Qed.

Lemma typed_get_set_ne a idx idx' val :
  idx ≠ idx' → typed_get (typed_set a idx val) idx' = typed_get a idx'.
Proof.
  intros Hne. unfold typed_get, typed_set.
  destruct (Z.leb_spec 0 idx'), (Z.leb_spec 0 idx); try done.
  apply list_lookup_insert_ne. lia.
Qed.

Lemma length_typed_set a idx val : length (typed_set a idx val) = length a.
Proof. unfold typed_set. destruct (0 <=? idx); [apply length_insert|done]. Qed.

Lemma typed_set_twice a idx val val' :
  typed_set (typed_set a idx val) idx val' = typed_set a idx val'.
Proof.
  unfold typed_set. destruct (0 <=? idx); [|done].
  apply list_insert_insert_eq.
Qed.

Lemma reg_set_reg_eq r val s :
  nibble r → length (v s) = 16%nat → reg (set_reg r val s) r = val mod 256.
Proof.
  intros Hr Hlen. unfold reg, set_reg. simpl.
  rewrite typed_get_set_eq; [done| |]; unfold nibble in Hr; lia.
Qed.

Lemma reg_set_reg_ne r r' val s :
  r ≠ r' → reg (set_reg r val s) r' = reg s r'.
Proof.
  intros Hne. unfold reg, set_reg. simpl. by rewrite typed_get_set_ne.
Qed.

Lemma length_v_set_reg r val s :
  length (v (set_reg r val s)) = length (v s).
Proof. unfold set_reg. simpl. apply length_typed_set. Qed.


Lemma reg_advance s r : reg (advance s) r = reg s r.
Proof. reflexivity. Qed.

Lemma nibble_0xf : nibble 0xf.
Proof. unfold nibble. lia. Qed.

(** Rewrites the decoded fields of [instr g x y n] in the goal. *)
Ltac decode_instr g x y n :=
  let H := fresh "Hdec" in
  pose proof (decode g x y n) as H;
  cbv zeta in H;
  destruct H as (-> & -> & -> & -> & -> & ->);
  [unfold nibble in *; lia ..|].

(** ** Unknown instruction words *)

(** C1 (defect in the code): the words 0x8008, 0xE000, 0xF0FF and 0x0123
    select no defined sub-opcode of their groups, and [executeInstruction]
    neither throws nor reports anything for them: it returns normally, the
    only effect being the program counter advanced by 2. *)
Theorem undefined_subopcode_is_skipped rand s :
  executeInstruction 0x8008 rand s = Return (advance s) ∧
  executeInstruction 0xE000 rand s = Return (advance s) ∧
  executeInstruction 0xF0FF rand s = Return (advance s) ∧
  executeInstruction 0x0123 rand s = Return (advance s).
Proof. repeat split; reflexivity. Qed.

(** ** Arithmetic *)

Lemma executeInstruction_add X Y rand s :
  nibble X → nibble Y →
  executeInstruction (instr 8 X Y 4) rand s =
  Return
    (let s := advance s in
     let sum := reg s X + reg s Y in
     let s := set_reg X sum s in
     let s := set_reg 0xf 0 s in
     let s := if sum >? 0xff then set_reg 0xf 1 s else s in
     set_reg X sum s).
Proof.
  intros HX HY. unfold executeInstruction.
  decode_instr 8 X Y 4. reflexivity.
Qed.

(** C6 (amended): for all register indices X and Y, opcode 8XY4 with
    Vx = a and Vy = b leaves Vx = (a + b) mod 256; when X is not 0xF the
    flag register VF ends as 1 if a + b > 255 and as 0 otherwise.  (When X
    is 0xF the first conjunct says what VF holds: the truncated sum.) *)
Theorem add_sets_carry X Y a b rand s :
  nibble X → nibble Y → length (v s) = 16%nat →
  reg s X = a → reg s Y = b →
  ∃ s', executeInstruction (instr 8 X Y 4) rand s = Return s' ∧
        reg s' X = (a + b) mod 256 ∧
        (X ≠ 0xf → reg s' 0xf = if a + b >? 255 then 1 else 0).
Proof.
  intros HX HY Hlen Ha Hb. rewrite executeInstruction_add by done.
  eexists; split; [reflexivity|]. cbv zeta.
  rewrite !reg_advance, Ha, Hb.
  assert (Hlen' : ∀ t, length (v t) = 16%nat →
            length (v (if a + b >? 255 then set_reg 15 1 t else t)) = 16%nat).
  { intros t Ht. destruct (a + b >? 255); [|done].
    by rewrite length_v_set_reg. }
  split.
  - apply reg_set_reg_eq; [done|]. apply Hlen'.
    by rewrite !length_v_set_reg.
  - intros HXf. rewrite reg_set_reg_ne by done.
    destruct (a + b >? 255).
    + rewrite reg_set_reg_eq; [done|apply nibble_0xf|].
      by rewrite !length_v_set_reg.
    + rewrite reg_set_reg_eq; [done|apply nibble_0xf|].
      by rewrite !length_v_set_reg.
Qed.

Lemma add_sets_carry_witness :
  ∃ s', executeInstruction (instr 8 1 2 4) 0
          (set_reg 1 200 (set_reg 2 100 (boot []))) = Return s' ∧
        reg s' 1 = (200 + 100) mod 256 ∧
        (1 ≠ 0xf → reg s' 0xf = if 200 + 100 >? 255 then 1 else 0).
Proof.
  apply (add_sets_carry 1 2 200 100 0
           (set_reg 1 200 (set_reg 2 100 (boot []))));
    [unfold nibble; lia | unfold nibble; lia | reflexivity
    | reflexivity | reflexivity].
Defined.

(** C6, as stated, fails when X is 0xF: with VF = 200 and V0 = 100 the sum
    exceeds 255, yet VF ends as 44 (the truncated sum), not as 1. *)
Lemma add_flag_register_counterexample :
  let s := set_reg 0xf 200 (set_reg 0 100 (boot [])) in
  reg s 0xf = 200 ∧ reg s 0 = 100 ∧ 200 + 100 > 255 ∧
  ∃ s', executeInstruction (instr 8 0xf 0 4) 0 s = Return s' ∧
        reg s' 0xf = 44 ∧ reg s' 0xf ≠ 1.
Proof.
  cbv zeta. split; [reflexivity|]. split; [reflexivity|]. split; [lia|].
  eexists. split; [reflexivity|]. split; [reflexivity|].
  vm_compute. discriminate.
Qed.


Lemma land_0x80 a : Z.land a 0x80 = 0 ∨ Z.land a 0x80 = 0x80.
Proof.
  destruct (Z.testbit a 7) eqn:Hbit; [right|left];
    apply Z.bits_inj'; intros n Hn; rewrite Z.land_spec;
    change 0x80 with (2 ^ 7); rewrite Z.pow2_bits_eqb by lia;
    destruct (Z.eqb_spec 7 n) as [<-|Hne];
    rewrite ?Hbit, ?andb_false_r, ?Z.bits_0; reflexivity.
Qed.

Lemma executeInstruction_shl X Y rand s :
  nibble X → nibble Y →
  executeInstruction (instr 8 X Y 0xe) rand s =
  Return
    (let s := advance s in
     let s := set_reg 0xf (Z.land (reg s X) 0x80) s in
     set_reg X (reg s X ≪ 1) s).
Proof.
  intros HX HY. unfold executeInstruction.
  decode_instr 8 X Y 0xe. reflexivity.
Qed.

(** C7 (amended): for every target register X other than 0xF and every
    value v it holds, opcode 8XYE stores the pre-shift most-significant
    bit unmasked (0x00 or 0x80) into VF and (v << 1) truncated to 8 bits
    into Vx; a register holding 0x81 ends as 0x02 with VF = 0x80. *)
Theorem shl_keeps_unmasked_flag X Y vx rand s :
  nibble X → nibble Y → X ≠ 0xf → length (v s) = 16%nat → reg s X = vx →
  ∃ s', executeInstruction (instr 8 X Y 0xe) rand s = Return s' ∧
        reg s' 0xf = Z.land vx 0x80 ∧
        (reg s' 0xf = 0x00 ∨ reg s' 0xf = 0x80) ∧
        reg s' X = (vx ≪ 1) mod 256 ∧
        (vx = 0x81 → reg s' X = 0x02 ∧ reg s' 0xf = 0x80).
Proof.
  intros HX HY HXf Hlen Hvx. rewrite executeInstruction_shl by done.
  eexists; split; [reflexivity|]. cbv zeta.
  rewrite (reg_set_reg_ne 0xf X) by done.
  rewrite !reg_advance, Hvx.
  assert (HF : reg (set_reg X (vx ≪ 1)
                      (set_reg 15 (Z.land vx 128) (advance s))) 15
               = Z.land vx 128).
  { rewrite reg_set_reg_ne by done.
    rewrite reg_set_reg_eq by (done || apply nibble_0xf).
    destruct (land_0x80 vx) as [-> | ->]; reflexivity. }
  assert (HXv : reg (set_reg X (vx ≪ 1)
                       (set_reg 15 (Z.land vx 128) (advance s))) X
                = (vx ≪ 1) mod 256).
  { apply reg_set_reg_eq; [done|]. by rewrite length_v_set_reg. }
  rewrite HF, HXv.
  split; [reflexivity|]. split; [apply land_0x80|]. split; [reflexivity|].
  intros ->. split; reflexivity.
Qed.

Lemma shl_keeps_unmasked_flag_witness :
  ∃ s', executeInstruction (instr 8 3 0 0xe) 0
          (set_reg 3 0x81 (boot [])) = Return s' ∧
        reg s' 0xf = Z.land 0x81 0x80 ∧
        (reg s' 0xf = 0x00 ∨ reg s' 0xf = 0x80) ∧
        reg s' 3 = (0x81 ≪ 1) mod 256 ∧
        (0x81 = 0x81 → reg s' 3 = 0x02 ∧ reg s' 0xf = 0x80).
Proof.
  apply (shl_keeps_unmasked_flag 3 0 0x81 0 (set_reg 3 0x81 (boot [])));
    [unfold nibble; lia | unfold nibble; lia | lia | reflexivity
    | reflexivity].
Defined.

(** C7, as stated, fails when the target register is VF itself: VF holding
    0x81 ends as 0x00, neither 0x80 (the flag) nor 0x02 (the shifted
    value). *)
Lemma shl_flag_register_counterexample :
  let s := set_reg 0xf 0x81 (boot []) in
  reg s 0xf = 0x81 ∧
  ∃ s', executeInstruction (instr 8 0xf 0 0xe) 0 s = Return s' ∧
        reg s' 0xf = 0 ∧ reg s' 0xf ≠ 0x80 ∧ reg s' 0xf ≠ 0x02.
Proof.
  cbv zeta. split; [reflexivity|].
  eexists. split; [reflexivity|].
  split; [reflexivity|]. split; vm_compute; discriminate.
Qed.

(** ** The font address *)

Lemma executeInstruction_font X rand s :
  nibble X →
  executeInstruction (instr 0xf X 2 9) rand s =
  Return (with_i (reg (advance s) X * 5) (advance s)).
Proof.
  intros HX. unfold executeInstruction.
  decode_instr 0xf X 2 9. reflexivity.
Qed.

(** C9 (amended): for every value v held in Vx, opcode FX29 sets the
    address register to v × 5, without reducing v to its low nibble.  The
    result is (v mod 16) × 5 and lies in the font region 0x000–0x04F
    exactly when v is at most 15. *)
Theorem font_address_is_five_times_register X vx rand s :
  nibble X → reg s X = vx → 0 ≤ vx →
  ∃ s', executeInstruction (instr 0xf X 2 9) rand s = Return s' ∧
        i s' = vx * 5 ∧
        (vx ≤ 15 → i s' = vx mod 16 * 5 ∧ 0 ≤ i s' ≤ 0x4F) ∧
        (15 < vx → i s' ≠ vx mod 16 * 5 ∧ 0x4F < i s').
Proof.
  intros HX Hvx Hpos. rewrite executeInstruction_font by done.
  eexists; split; [reflexivity|]. simpl i.
  rewrite reg_advance, Hvx. split; [reflexivity|].
  pose proof (Z.mod_pos_bound vx 16 ltac:(lia)) as Hmod.
  split; intros Hrange.
  - rewrite Z.mod_small by lia. lia.
  - lia.
Qed.

Lemma font_address_is_five_times_register_witness :
  ∃ s', executeInstruction (instr 0xf 4 2 9) 0
          (set_reg 4 0x0a (boot [])) = Return s' ∧
        i s' = 0x0a * 5 ∧
        (0x0a ≤ 15 → i s' = 0x0a mod 16 * 5 ∧ 0 ≤ i s' ≤ 0x4F) ∧
        (15 < 0x0a → i s' ≠ 0x0a mod 16 * 5 ∧ 0x4F < i s').
Proof.
  apply (font_address_is_five_times_register 4 0x0a 0
           (set_reg 4 0x0a (boot [])));
    [unfold nibble; lia | reflexivity | lia].
Defined.

(** C9, as stated, fails for a register value above 15: with V0 = 0x10
    the address register becomes 0x50, which is not (0x10 mod 16) × 5 = 0
    and lies beyond the font region. *)
Lemma font_address_counterexample :
  let s := set_reg 0 0x10 (boot []) in
  reg s 0 = 0x10 ∧
  ∃ s', executeInstruction (instr 0xf 0 2 9) 0 s = Return s' ∧
        i s' = 0x50 ∧ i s' ≠ 0x10 mod 16 * 5 ∧ ¬ i s' ≤ 0x4F.
Proof.
  cbv zeta. split; [reflexivity|].
  eexists. split; [reflexivity|].
  split; [reflexivity|]. split; vm_compute; [discriminate|].
  intros Hle. by apply Hle.
Qed.


(** ** Block store and block load *)

Lemma executeInstruction_store X rand s :
  nibble X →
  executeInstruction (instr 0xf X 5 5) rand s =
  Return (store_registers X (advance s)).
Proof.
  intros HX. unfold executeInstruction.
  decode_instr 0xf X 5 5. reflexivity.
Qed.

Lemma executeInstruction_load X rand s :
  nibble X →
  executeInstruction (instr 0xf X 6 5) rand s =
  Return (load_registers X (advance s)).
Proof.
  intros HX. unfold executeInstruction.
  decode_instr 0xf X 6 5. reflexivity.
Qed.

(** The store loop, over any list of register indices. *)
Lemma store_loop_frame (l : list Z) (s : CPU) :
  let s' := foldl (λ s r, set_mem (i s + r) (reg s r) s) s l in
  v s' = v s ∧ i s' = i s ∧
  ∀ a, (∀ r, r ∈ l → a ≠ i s + r) →
       typed_get (memory s') a = typed_get (memory s) a.
Proof.
  revert s. induction l as [|r l IH]; intros s; cbv zeta; [done|].
  simpl foldl.
  destruct (IH (set_mem (i s + r) (reg s r) s)) as (Hv & Hi & Hm).
  split; [by rewrite Hv|]. split; [by rewrite Hi|].
  intros a Ha. rewrite Hm.
  - simpl. apply typed_get_set_ne. apply not_eq_sym, Ha. left.
  - intros r' Hr'. simpl. apply Ha. by right.
Qed.

(** The load loop, over any list of register indices. *)
Lemma load_loop_frame (l : list Z) (s : CPU) :
  let s' := foldl (λ s r, set_reg r (mem s (i s + r)) s) s l in
  memory s' = memory s ∧ i s' = i s ∧
  ∀ r, r ∉ l → typed_get (v s') r = typed_get (v s) r.
Proof.
  revert s. induction l as [|r l IH]; intros s; cbv zeta; [done|].
  simpl foldl.
  destruct (IH (set_reg r (mem s (i s + r)) s)) as (Hm & Hi & Hv).
  split; [by rewrite Hm|]. split; [by rewrite Hi|].
  intros r' Hr'. rewrite Hv.
  - simpl. apply typed_get_set_ne. intros ->. apply Hr'. left.
  - intros Hin. apply Hr'. by right.
Qed.

(** C10: for every register index X and every address register value,
    FX55 changes no memory cell outside I..I+X, no register and not I;
    FX65 changes no register with index greater than X, no memory cell
    and not I. *)
Theorem block_transfer_frame X rand s :
  nibble X →
  (∃ s', executeInstruction (instr 0xf X 5 5) rand s = Return s' ∧
         v s' = v s ∧ i s' = i s ∧
         ∀ a, a < i s ∨ i s + X < a →
              typed_get (memory s') a = typed_get (memory s) a) ∧
  (∃ s', executeInstruction (instr 0xf X 6 5) rand s = Return s' ∧
         memory s' = memory s ∧ i s' = i s ∧
         ∀ r, X < r → typed_get (v s') r = typed_get (v s) r).
Proof.
  intros HX. split.
  - rewrite executeInstruction_store by done.
    eexists; split; [reflexivity|]. unfold store_registers.
    destruct (store_loop_frame (seqZ 0 (X + 1)) (advance s))
      as (Hv & Hi & Hm).
    split; [exact Hv|]. split; [exact Hi|].
    intros a Ha. rewrite Hm; [done|].
    intros r Hr%elem_of_seqZ. simpl. lia.
  - rewrite executeInstruction_load by done.
    eexists; split; [reflexivity|]. unfold load_registers.
    destruct (load_loop_frame (seqZ 0 (X + 1)) (advance s))
      as (Hm & Hi & Hv).
    split; [exact Hm|]. split; [exact Hi|].
    intros r Hr. rewrite Hv; [done|].
    intros Hin%elem_of_seqZ. lia.
Qed.

Lemma block_transfer_frame_witness :
  (∃ s', executeInstruction (instr 0xf 2 5 5) 0
           (with_i 0x300 (boot [])) = Return s' ∧
         v s' = v (with_i 0x300 (boot [])) ∧
         i s' = i (with_i 0x300 (boot [])) ∧
         ∀ a, a < i (with_i 0x300 (boot [])) ∨
              i (with_i 0x300 (boot [])) + 2 < a →
              typed_get (memory s') a =
              typed_get (memory (with_i 0x300 (boot []))) a) ∧
  (∃ s', executeInstruction (instr 0xf 2 6 5) 0
           (with_i 0x300 (boot [])) = Return s' ∧
         memory s' = memory (with_i 0x300 (boot [])) ∧
         i s' = i (with_i 0x300 (boot [])) ∧
         ∀ r, 2 < r → typed_get (v s') r =
                      typed_get (v (with_i 0x300 (boot []))) r).
Proof.
  apply (block_transfer_frame 2 0 (with_i 0x300 (boot []))).
  unfold nibble. lia.
Defined.


(** ** The cycle and the timers *)

Lemma cycle_step_returns rand s : ∃ s', cycle_step rand s = Return s'.
Proof.
  unfold cycle_step. destruct (paused s); [by eexists|].
  apply executeInstruction_returns.
Qed.

Lemma loop_returns (rand : Z → Z) (l : list Z) (s : CPU) :
  ∃ s1, foldl (λ c k, bind c (cycle_step (rand k))) (Return s) l = Return s1.
Proof.
  revert s. induction l as [|k l IH]; intros s; [by eexists|].
  simpl. destruct (cycle_step_returns (rand k) s) as [s' ->]. apply IH.
Qed.

Lemma loop_paused (rand : Z → Z) (l : list Z) (s : CPU) :
  paused s = true →
  foldl (λ c k, bind c (cycle_step (rand k))) (Return s) l = Return s.
Proof.
  intros Hp. induction l as [|k l IH]; [done|].
  simpl. unfold cycle_step at 2. rewrite Hp. exact IH.
Qed.

(** The instruction loop always comes to an end with a state. *)
Lemma instruction_loop_returns rand s :
  ∃ s1, instruction_loop rand s = Return s1.
Proof. apply loop_returns. Qed.

(** While the machine is paused the loop fetches and executes nothing. *)
Lemma instruction_loop_paused rand s :
  paused s = true → instruction_loop rand s = Return s.
Proof. apply loop_paused. Qed.

Lemma updateTimers_delay s :
  delayTimer (updateTimers s) =
  if delayTimer s >? 0 then delayTimer s - 1 else delayTimer s.
Proof.
  unfold updateTimers.
  destruct (delayTimer s >? 0) eqn:Hd; simpl;
    destruct (soundTimer s >? 0); simpl; rewrite ?Hd; reflexivity.
Qed.

Lemma updateTimers_sound s :
  soundTimer (updateTimers s) =
  if soundTimer s >? 0 then soundTimer s - 1 else soundTimer s.
Proof.
  unfold updateTimers.
  destruct (delayTimer s >? 0); simpl;
    destruct (soundTimer s >? 0) eqn:Hs; simpl; rewrite ?Hs; reflexivity.
Qed.

Lemma playSound_timers s :
  delayTimer (playSound s) = delayTimer s ∧
  soundTimer (playSound s) = soundTimer s.
Proof. unfold playSound. by destruct (soundTimer s >? 0). Qed.

(** C2 (amended): every call of [cycle] returns, and with [s1] the state
    in which its instruction loop ends: if the paused flag of [s1] is
    clear, the delay timer and the sound timer are each decremented by 1
    when positive and stay 0 when 0, once for the call; if the paused flag
    of [s1] is set, both timers keep their values.  A call made while the
    machine is already paused executes nothing and changes no timer. *)
Theorem timers_tick_unless_paused rand s :
  ∃ s1 s', instruction_loop rand s = Return s1 ∧
           cycle rand s = Return s' ∧
    (paused s1 = false →
       delayTimer s' = (if delayTimer s1 >? 0 then delayTimer s1 - 1
                        else delayTimer s1) ∧
       soundTimer s' = (if soundTimer s1 >? 0 then soundTimer s1 - 1
                        else soundTimer s1) ∧
       (0 ≤ delayTimer s1 → delayTimer s' = Z.max 0 (delayTimer s1 - 1)) ∧
       (0 ≤ soundTimer s1 → soundTimer s' = Z.max 0 (soundTimer s1 - 1))) ∧
    (paused s1 = true →
       delayTimer s' = delayTimer s1 ∧ soundTimer s' = soundTimer s1) ∧
    (paused s = true →
       s1 = s ∧ delayTimer s' = delayTimer s ∧ soundTimer s' = soundTimer s).
Proof.
  destruct (instruction_loop_returns rand s) as [s1 Hloop].
  exists s1. eexists. split; [exact Hloop|].
  unfold cycle. rewrite Hloop. simpl bind. split; [reflexivity|].
  simpl delayTimer. simpl soundTimer.
  assert (Hrun : paused s1 = false →
    delayTimer (playSound (if paused s1 then s1 else updateTimers s1)) =
      (if delayTimer s1 >? 0 then delayTimer s1 - 1 else delayTimer s1) ∧
    soundTimer (playSound (if paused s1 then s1 else updateTimers s1)) =
      (if soundTimer s1 >? 0 then soundTimer s1 - 1 else soundTimer s1)).
  { intros ->.
    destruct (playSound_timers (updateTimers s1)) as [-> ->].
    by rewrite updateTimers_delay, updateTimers_sound. }
  assert (Hfrozen : paused s1 = true →
    delayTimer (playSound (if paused s1 then s1 else updateTimers s1)) =
      delayTimer s1 ∧
    soundTimer (playSound (if paused s1 then s1 else updateTimers s1)) =
      soundTimer s1).
  { intros ->. apply playSound_timers. }
  split; [|split].
  - intros Hp. destruct (Hrun Hp) as [Hd Hs]. rewrite Hd, Hs.
    split; [reflexivity|]. split; [reflexivity|].
    split; intros Hpos.
    + destruct (Z.gtb_spec (delayTimer s1) 0); lia.
    + destruct (Z.gtb_spec (soundTimer s1) 0); lia.
  - exact Hfrozen.
  - intros Hp. rewrite instruction_loop_paused in Hloop by done.
    injection Hloop as <-. split; [reflexivity|]. by apply Hfrozen.
Qed.

(** C2, as stated, fails while the machine is paused.  The program sets
    V0 = 5, copies it to both timers and waits for a key; one call of
    [cycle] leaves the machine paused with both timers at 5, and a second
    call leaves them at 5 instead of 4. *)
Lemma timers_frozen_while_paused_counterexample :
  ∃ s s',
    cycle (λ _, 0)
      (boot [0x60; 0x05; 0xF0; 0x15; 0xF0; 0x18; 0xF0; 0x0A]) = Return s ∧
    paused s = true ∧ delayTimer s = 5 ∧ soundTimer s = 5 ∧
    cycle (λ _, 0) s = Return s' ∧
    delayTimer s' = 5 ∧ soundTimer s' = 5 ∧
    delayTimer s' ≠ 5 - 1 ∧ soundTimer s' ≠ 5 - 1.
Proof.
  eexists. eexists.
  split; [vm_compute; reflexivity|].
  repeat (split; [reflexivity|]).
  split; vm_compute; discriminate.
Qed.


(** ** Waiting for a key *)

Lemma executeInstruction_wait X rand s :
  nibble X →
  executeInstruction (instr 0xf X 0 0xa) rand s =
  Return (with_keyboard
            (mkKeyboard (keysPressed (keyboard s)) (Some X))
            (with_paused true (advance s))).
Proof.
  intros HX. unfold executeInstruction.
  decode_instr 0xf X 0 0xa. reflexivity.
Qed.

(** After Fx0A the machine is paused, the hook holds the closure for
    register X, and later calls of [cycle] execute nothing. *)
Lemma wait_pauses X rand s :
  nibble X →
  ∃ s', executeInstruction (instr 0xf X 0 0xa) rand s = Return s' ∧
        paused s' = true ∧
        onNextKeyPress (keyboard s') = Some X ∧
        v s' = v s ∧
        ∀ rand', instruction_loop rand' s' = Return s'.
Proof.
  intros HX. rewrite executeInstruction_wait by done.
  eexists; split; [reflexivity|]. repeat split.
  intros rand'. by apply instruction_loop_paused.
Qed.

(** A press of a key whose CHIP-8 value is 1..15 runs the closure once:
    it stores the key, clears the pause and the hook; a later key press
    leaves the registers alone, and the next [cycle] executes again. *)
Lemma key_press_resumes which k X s :
  keymap which = Some k → k ≠ 0 →
  nibble X → length (v s) = 16%nat →
  onNextKeyPress (keyboard s) = Some X →
  let s' := onKeyDown which s in
  reg s' X = k ∧ paused s' = false ∧
  onNextKeyPress (keyboard s') = None ∧
  (∀ which', v (onKeyDown which' s') = v s' ∧
             paused (onKeyDown which' s') = false) ∧
  ∀ rand, cycle_step rand s' = executeInstruction (fetch s') rand s'.
Proof.
  intros Hkey Hk HX Hlen Hhook. cbv zeta.
  assert (Hbyte : k mod 256 = k).
  { apply Z.mod_small. unfold keymap in Hkey.
    repeat case_match; simplify_eq; lia. }
  unfold onKeyDown. simpl. rewrite Hhook, Hkey. simpl.
  destruct (Z.eqb_spec k 0) as [|_]; [done|]. simpl.
  split; [|split; [reflexivity|split; [reflexivity|split]]].
  - unfold nextKeyPress, reg. simpl.
    rewrite typed_get_set_eq; [by rewrite Hbyte| |];
      unfold nibble in HX; lia.
  - intros which'. unfold onKeyDown. simpl. done.
  - intros rand. reflexivity.
Qed.

(** C4 (defect in the code): the CHIP-8 key 0 (key code 88) never reaches
    the closure.  The program sets V3 = 0x55 and waits for a key into V3;
    after one [cycle] the machine is paused with the hook installed, and
    pressing key 0 leaves V3 at 0x55, the machine paused and the hook in
    place. *)
Theorem wait_ignores_key_zero :
  keymap 88 = Some 0 ∧
  ∃ s, cycle (λ _, 0) (boot [0x63; 0x55; 0xF3; 0x0A]) = Return s ∧
       paused s = true ∧ onNextKeyPress (keyboard s) = Some 3 ∧
       reg s 3 = 0x55 ∧
       paused (onKeyDown 88 s) = true ∧
       reg (onKeyDown 88 s) 3 = 0x55 ∧
       onNextKeyPress (keyboard (onKeyDown 88 s)) = Some 3.
Proof.
  split; [reflexivity|]. eexists.
  split; [vm_compute; reflexivity|].
  repeat split; reflexivity.
Qed.


(** ** Registers and memory cells stay bytes *)

Create HintDb arrays.

Lemma typed_set_bytes a idx val :
  Forall byte a → Forall byte (typed_set a idx val).
Proof.
  intros Ha. unfold typed_set. destruct (0 <=? idx); [|done].
  apply Forall_insert; [done|]. apply Z.mod_pos_bound. lia.
Qed.

Lemma arrays_ok_set_reg r val s : arrays_ok s → arrays_ok (set_reg r val s).
Proof.
  intros (Hv & Hm & Hbv & Hbm). unfold arrays_ok, set_reg. simpl.
  rewrite length_typed_set. auto using typed_set_bytes.
Qed.

Lemma arrays_ok_set_mem a val s : arrays_ok s → arrays_ok (set_mem a val s).
Proof.
  intros (Hv & Hm & Hbv & Hbm). unfold arrays_ok, set_mem. simpl.
  rewrite length_typed_set. auto using typed_set_bytes.
Qed.

Lemma arrays_ok_same s s' :
  v s' = v s → memory s' = memory s → arrays_ok s → arrays_ok s'.
Proof. unfold arrays_ok. by intros -> ->. Qed.

Lemma arrays_ok_skip_if b s : arrays_ok s → arrays_ok (skip_if b s).
Proof. by destruct b. Qed.

Lemma arrays_ok_draw_col x y row col st :
  arrays_ok st.1 → arrays_ok (draw_col x y row st col).1.
Proof.
  destruct st as [s sprite]. intros Hs. unfold draw_col.
  destruct (Z.land sprite 128 >? 0); [|done].
  destruct (setPixel _ _ _) as [r erased].
  destruct erased; [apply arrays_ok_set_reg|]; done.
Qed.

Lemma arrays_ok_draw_row x y row s : arrays_ok s → arrays_ok (draw_row x y s row).
Proof.
  intros Hs. unfold draw_row. cbv zeta.
  generalize (mem s (i s + row)). intros sprite.
  change s with (s, sprite).1 in Hs. revert Hs.
  generalize (s, sprite). clear s sprite.
  induction (seqZ 0 8) as [|col l IH]; intros st Hs; [done|].
  simpl. apply IH. by apply arrays_ok_draw_col.
Qed.

Lemma arrays_ok_draw opcode x y s : arrays_ok s → arrays_ok (draw opcode x y s).
Proof.
  intros Hs. unfold draw. cbv zeta.
  apply (arrays_ok_set_reg 0xf 0) in Hs. revert Hs.
  generalize (set_reg 15 0 s). clear s.
  induction (seqZ 0 (Z.land opcode 15)) as [|row l IH]; intros s Hs; [done|].
  simpl. apply IH. by apply arrays_ok_draw_row.
Qed.

Lemma arrays_ok_store_registers x s :
  arrays_ok s → arrays_ok (store_registers x s).
Proof.
  unfold store_registers. revert s.
  induction (seqZ 0 (x + 1)) as [|r l IH]; intros s Hs; [done|].
  simpl. apply IH. by apply arrays_ok_set_mem.
Qed.

Lemma arrays_ok_load_registers x s :
  arrays_ok s → arrays_ok (load_registers x s).
Proof.
  unfold load_registers. revert s.
  induction (seqZ 0 (x + 1)) as [|r l IH]; intros s Hs; [done|].
  simpl. apply IH. by apply arrays_ok_set_reg.
Qed.

#[local] Hint Resolve arrays_ok_set_reg arrays_ok_set_mem arrays_ok_skip_if
  arrays_ok_draw arrays_ok_store_registers arrays_ok_load_registers : arrays.

Lemma arrays_ok_advance s : arrays_ok s → arrays_ok (advance s).
Proof. done. Qed.

(** The part of the width invariant that the typed arrays enforce: every
    opcode handler leaves sixteen registers and 4096 memory cells, each
    holding a value in 0..255. *)
Lemma executeInstruction_keeps_bytes opcode rand s s' :
  arrays_ok s → executeInstruction opcode rand s = Return s' → arrays_ok s'.
Proof.
  intros Hs%arrays_ok_advance.
  destruct (land_group opcode) as (g & Hg & Hgroup).
  unfold executeInstruction. rewrite Hgroup. fold (advance s).
  generalize dependent (advance s). clear s. intros s Hs.
  destruct (nibble_cases g Hg) as
    [-> | [-> | [-> | [-> | [-> | [-> | [-> | [-> | [-> | [-> | [-> | [->
    | [-> | [-> | [-> | ->]]]]]]]]]]]]]]];
    cbv beta iota zeta delta [Z.mul Pos.mul];
    intros [= <-];
    repeat case_match;
    eauto 6 with arrays;
    try (eapply arrays_ok_same; [| |exact Hs]; reflexivity).
Qed.

(** The booted machine satisfies the invariant. *)
Lemma arrays_ok_store_from base bytes s :
  arrays_ok s → arrays_ok (store_from base bytes s).
Proof.
  revert base s. induction bytes as [|b rest IH]; intros base s Hs; [done|].
  simpl. apply IH. by apply arrays_ok_set_mem.
Qed.

Lemma arrays_ok_boot program : arrays_ok (boot program).
Proof.
  unfold boot, loadProgramIntoMemory, loadSpritesIntoMemory.
  do 2 apply arrays_ok_store_from.
  unfold arrays_ok, new_CPU. cbn [v memory].
  rewrite !length_replicate.
  split; [done|]. split; [done|].
  split; apply Forall_replicate; unfold byte; lia.
Qed.


Lemma loop_keeps_bytes (rand : Z → Z) (l : list Z) (s s' : CPU) :
  arrays_ok s →
  foldl (λ c k, bind c (cycle_step (rand k))) (Return s) l = Return s' →
  arrays_ok s'.
Proof.
  revert s. induction l as [|k l IH]; intros s Hs; simpl.
  - by intros [= <-].
  - destruct (cycle_step_returns (rand k) s) as [s1 Hstep]. rewrite Hstep.
    apply IH. unfold cycle_step in Hstep. destruct (paused s).
    + by injection Hstep as <-.
    + by eapply executeInstruction_keeps_bytes.
Qed.

Lemma cycle_keeps_bytes rand s s' :
  arrays_ok s → cycle rand s = Return s' → arrays_ok s'.
Proof.
  intros Hs. unfold cycle.
  destruct (instruction_loop_returns rand s) as [s1 Hloop]. rewrite Hloop.
  apply (loop_keeps_bytes rand _ _ _ Hs) in Hloop.
  simpl. intros [= <-]. eapply arrays_ok_same; [| |exact Hloop].
  - unfold playSound, updateTimers. by repeat case_match.
  - unfold playSound, updateTimers. by repeat case_match.
Qed.

Lemma cycles_keeps_bytes n rand s s' :
  arrays_ok s → cycles n rand s = Return s' → arrays_ok s'.
Proof.
  revert s. induction n as [|n IH]; intros s Hs; simpl.
  - by intros [= <-].
  - destruct (cycle rand s) as [s1|op] eqn:Hc; [|done]. simpl.
    apply IH. by eapply cycle_keeps_bytes.
Qed.


(** ** The address register *)

(** Fx1E adds the register to [i] as a plain number: nothing reduces the
    sum to sixteen (or twelve) bits. *)
Lemma executeInstruction_add_i X rand s :
  nibble X →
  executeInstruction (instr 0xf X 1 0xe) rand s =
  Return (with_i (i s + reg s X) (advance s)).
Proof.
  intros HX. unfold executeInstruction.
  decode_instr 0xf X 1 0xe. reflexivity.
Qed.

(** C5 (defect in the code): the address register leaves the 16-bit
    range.  The eight-byte program
      0x200: 60FF   V0 = 0xFF
      0x202: AFFF   I = 0xFFF
      0x204: F01E   I += V0
      0x206: 1204   jump to 0x204
    run from the booted machine for 49 calls of [cycle] ends with
    I = 66315, above 0xFFFF, while registers and memory still hold
    bytes. *)
Theorem address_register_outgrows_16_bits :
  ∃ s, cycles 49 (λ _, 0)
         (boot [0x60; 0xFF; 0xAF; 0xFF; 0xF0; 0x1E; 0x12; 0x04]) = Return s ∧
       i s = 66315 ∧ 0xFFFF < i s ∧ arrays_ok s.
Proof.
  assert (Hrun : ∃ s, cycles 49 (λ _, 0)
            (boot [0x60; 0xFF; 0xAF; 0xFF; 0xF0; 0x1E; 0x12; 0x04])
            = Return s ∧ i s = 66315).
  { eexists. split; vm_compute; reflexivity. }
  destruct Hrun as (s & Hrun & Hi).
  exists s. split; [exact Hrun|]. split; [exact Hi|].
  split; [rewrite Hi; reflexivity|].
  exact (cycles_keeps_bytes _ _ _ _ (arrays_ok_boot _) Hrun).
Qed.


(** ** Sprite coordinates *)

Lemma setPixel_flip x y r :
  setPixel x y r =
  (mkRenderer (flip (display r) (pixel_index x y)),
   Z.lxor (pixel (display r) (pixel_index x y)) 1 =? 0).
Proof. reflexivity. Qed.

(** Where [setPixel] does wrap: coordinates inside the display, and
    coordinates past an edge by 1 to 63 columns or 1 to 31 rows. *)
Lemma pixel_index_wraps_once x y :
  0 ≤ x < 64 ∨ 64 < x < 128 → 0 ≤ y < 32 ∨ 32 < y < 64 →
  pixel_index x y = x mod 64 + y mod 32 * 64.
Proof.
  intros Hx Hy. unfold pixel_index, cols, rows.
  assert (Hxm : x mod 64 = if x >? 64 then x - 64 else x).
  { destruct (Z.gtb_spec x 64).
    - symmetry; apply Z.mod_unique with 1; lia.
    - apply Z.mod_small; lia. }
  assert (Hym : y mod 32 = if y >? 32 then y - 32 else y).
  { destruct (Z.gtb_spec y 32).
    - symmetry; apply Z.mod_unique with 1; lia.
    - apply Z.mod_small; lia. }
  rewrite Hxm, Hym.
  destruct (Z.gtb_spec x 64), (Z.ltb_spec x 0),
    (Z.gtb_spec y 32), (Z.ltb_spec y 0); lia.
Qed.


(** C3 (defect in the code): a coordinate equal to the bound is not
    wrapped, and a coordinate of twice the bound or more is wrapped only
    once.  [setPixel(64, 0)] toggles index 64, the pixel of column 0 in
    row 1, not (0, 0); [setPixel(0, 32)] toggles index 2048, outside the
    64x32 grid that [render] shows; [setPixel(200, 0)] toggles index 136,
    a pixel of row 2.  Drawing the first font row (0xF0) with D011 at
    V0 = 64, V1 = 0 lights indices 64, 1, 2, 3 and leaves index 0
    untouched. *)
Theorem column_64_lands_on_next_row :
  pixel_index 64 0 = 64 ∧ 64 mod 64 + 0 mod 32 * 64 = 0 ∧
  pixel_index 0 32 = 2048 ∧ pixel_index 200 0 = 136 ∧
  ∃ s', executeInstruction (instr 0xd 0 1 1) 0
          (set_reg 0 64 (boot [])) = Return s' ∧
        display (renderer s') !! 64 = Some 1 ∧
        display (renderer s') !! 0 = None ∧
        display (renderer s') !! 1 = Some 1 ∧
        display (renderer s') !! 2 = Some 1 ∧
        display (renderer s') !! 3 = Some 1.
Proof.
  split; [reflexivity|]. split; [reflexivity|].
  split; [reflexivity|]. split; [reflexivity|].
  eexists. split; [vm_compute; reflexivity|].
  split; [vm_compute; reflexivity|].
  split; [vm_compute; reflexivity|].
  split; [vm_compute; reflexivity|].
  split; vm_compute; reflexivity.
Qed.


(** ** Toggling pixels *)

Lemma lxor_1_twice a : Z.lxor (Z.lxor a 1) 1 = a.
Proof. by rewrite Z.lxor_assoc, Z.lxor_nilpotent, Z.lxor_0_r. Qed.

Lemma pixel_flip_eq d p : pixel (flip d p) p = Z.lxor (pixel d p) 1.
Proof. unfold flip, pixel at 1. by rewrite lookup_insert_eq. Qed.

Lemma pixel_flip_ne d p q : p ≠ q → pixel (flip d p) q = pixel d q.
Proof. intros Hne. unfold flip, pixel at 1. by rewrite lookup_insert_ne. Qed.

Lemma blit_cons p ps df :
  blit (p :: ps) df =
  blit ps (flip df.1 p, df.2 || (Z.lxor (pixel df.1 p) 1 =? 0)).
Proof. reflexivity. Qed.

Lemma blit_app ps qs df : blit (ps ++ qs) df = blit qs (blit ps df).
Proof. unfold blit. apply foldl_app. Qed.

Lemma blit_display ps df : (blit ps df).1 = foldl flip df.1 ps.
Proof.
  revert df. induction ps as [|p ps IH]; intros df; [done|].
  rewrite blit_cons, IH. reflexivity.
Qed.

(** After a run of toggles a pixel is inverted if and only if it was hit
    an odd number of times. *)
Lemma pixel_flips ps d p :
  pixel (foldl flip d ps) p =
  if odd_hits p ps then Z.lxor (pixel d p) 1 else pixel d p.
Proof.
  revert d. induction ps as [|q ps IH]; intros d; [done|].
  simpl. rewrite IH. destruct (Z.eqb_spec q p) as [->|Hne].
  - rewrite pixel_flip_eq. destruct (odd_hits p ps); simpl; [|done].
    apply lxor_1_twice.
  - rewrite pixel_flip_ne by done. by destruct (odd_hits p ps).
Qed.

Lemma odd_hits_elem p ps : odd_hits p ps = true → p ∈ ps.
Proof.
  induction ps as [|q ps IH]; [done|]. simpl.
  destruct (Z.eqb_spec q p) as [->|Hne]; [left|].
  simpl. intros H. right. by apply IH.
Qed.

Lemma blit_flag_stays ps d : (blit ps (d, true)).2 = true.
Proof.
  revert d. induction ps as [|p ps IH]; intros d; [done|].
  rewrite blit_cons. apply IH.
Qed.

(** A lit pixel that the run touches is erased by it. *)
Lemma blit_erases_lit ps d f p :
  pixel d p = 1 → p ∈ ps → (blit ps (d, f)).2 = true.
Proof.
  revert d f. induction ps as [|q ps IH]; intros d f Hlit Hin.
  - by apply elem_of_nil in Hin.
  - rewrite blit_cons. simpl. destruct (Z.eq_dec q p) as [->|Hne].
    + rewrite Hlit. simpl. rewrite orb_true_r. apply blit_flag_stays.
    + apply IH.
      * by rewrite pixel_flip_ne.
      * apply elem_of_cons in Hin as [->|Hin]; done.
Qed.

(** An unlit pixel that the run touches an even number of times is lit by
    one toggle and erased by the next. *)
Lemma blit_erases_relit ps d f p :
  pixel d p = 0 → p ∈ ps → odd_hits p ps = false →
  (blit ps (d, f)).2 = true.
Proof.
  revert d f. induction ps as [|q ps IH]; intros d f Hoff Hin Heven.
  - by apply elem_of_nil in Hin.
  - rewrite blit_cons. simpl in *. destruct (Z.eqb_spec q p) as [->|Hne].
    + apply blit_erases_lit with p.
      * by rewrite pixel_flip_eq, Hoff.
      * apply odd_hits_elem. by destruct (odd_hits p ps).
    + apply IH; [by rewrite pixel_flip_ne| |done].
      apply elem_of_cons in Hin as [->|Hin]; done.
Qed.

(** Two identical runs of toggles: every pixel is back to its value, and
    the second run erases if the runs touch a pixel that was unlit. *)
Lemma blit_twice ps d p :
  pixel (blit ps ((blit ps (d, false)).1, false)).1 p = pixel d p.
Proof.
  rewrite !blit_display. simpl. rewrite !pixel_flips.
  destruct (odd_hits p ps); [apply lxor_1_twice|done].
Qed.

Lemma blit_twice_flag ps d p :
  p ∈ ps → pixel d p = 0 →
  (blit ps ((blit ps (d, false)).1, false)).2 = true.
Proof.
  intros Hin Hoff. rewrite blit_display. simpl.
  destruct (odd_hits p ps) eqn:Hodd.
  - apply blit_erases_lit with p; [|done].
    by rewrite pixel_flips, Hodd, Hoff.
  - apply blit_erases_relit with p; [|done|done].
    by rewrite pixel_flips, Hodd.
Qed.


(** ** The sprite loop as a run of toggles *)

Lemma executeInstruction_draw X Y N rand s :
  nibble X → nibble Y → nibble N →
  executeInstruction (instr 0xd X Y N) rand s =
  Return (draw (instr 0xd X Y N) X Y (advance s)).
Proof.
  intros HX HY HN. unfold executeInstruction.
  decode_instr 0xd X Y N. reflexivity.
Qed.

Lemma reg_with_blit s df r : r ≠ 0xf → reg (with_blit s df) r = reg s r.
Proof. intros Hr. unfold with_blit. by rewrite reg_set_reg_ne. Qed.

Lemma flag_with_blit s df :
  length (v s) = 16%nat →
  reg (with_blit s df) 0xf = if df.2 then 1 else 0.
Proof.
  intros Hlen. unfold with_blit.
  rewrite reg_set_reg_eq by (done || apply nibble_0xf).
  by destruct df.2.
Qed.

Lemma with_blit_start s :
  set_reg 0xf 0 s = with_blit s (display (renderer s), false).
Proof. by destruct s as [[d] ?]. Qed.

Lemma draw_col_with_blit x y row col s df sprite :
  x ≠ 0xf → y ≠ 0xf →
  draw_col x y row (with_blit s df, sprite) col =
  (with_blit s
     (blit (if Z.land sprite 0x80 >? 0
            then [pixel_index (reg s x + col) (reg s y + row)] else []) df),
   sprite ≪ 1).
Proof.
  intros Hx Hy. unfold draw_col.
  destruct (Z.land sprite 128 >? 0); [|by destruct df].
  rewrite setPixel_flip, !reg_with_blit by done.
  f_equal. destruct df as [d f]. unfold blit. simpl.
  destruct (Z.lxor (pixel d _) 1 =? 0).
  - rewrite orb_true_r. unfold with_blit, set_reg. simpl.
    by rewrite typed_set_twice.
  - by rewrite orb_false_r.
Qed.

Lemma draw_cols_with_blit x y row cl s df sprite :
  x ≠ 0xf → y ≠ 0xf →
  (foldl (draw_col x y row) (with_blit s df, sprite) cl).1 =
  with_blit s (blit (row_points (reg s x) (reg s y) row sprite cl) df).
Proof.
  intros Hx Hy. revert df sprite.
  induction cl as [|col cl IH]; intros df sprite; [done|].
  cbn [foldl]. rewrite draw_col_with_blit, IH by done.
  simpl row_points. by rewrite blit_app.
Qed.

Lemma draw_rows_with_blit x y rl s df :
  x ≠ 0xf → y ≠ 0xf →
  foldl (draw_row x y) (with_blit s df) rl =
  with_blit s (blit (sprite_points s x y rl) df).
Proof.
  intros Hx Hy. revert df.
  induction rl as [|row rl IH]; intros df; [done|].
  cbn [foldl]. unfold draw_row at 2. cbv zeta.
  rewrite draw_cols_with_blit by done.
  change (mem (with_blit s df) (i (with_blit s df) + row))
    with (mem s (i s + row)).
  rewrite IH. unfold sprite_points. rewrite fmap_cons. simpl mjoin.
  by rewrite blit_app.
Qed.

(** [Dxyn] with coordinate registers other than VF: the display receives
    the toggles of [sprite_points] in order, and VF tells whether one of
    them erased. *)
Lemma draw_with_blit opcode x y s :
  x ≠ 0xf → y ≠ 0xf →
  draw opcode x y s =
  with_blit s (blit (sprite_points s x y (seqZ 0 (Z.land opcode 0xf)))
                    (display (renderer s), false)).
Proof.
  intros Hx Hy. unfold draw. cbv zeta.
  rewrite with_blit_start. by apply draw_rows_with_blit.
Qed.

Lemma row_points_elem vx vy row cl sprite (k : nat) col :
  cl !! k = Some col →
  (Z.land (sprite ≪ Z.of_nat k) 0x80 >? 0) = true →
  pixel_index (vx + col) (vy + row) ∈ row_points vx vy row sprite cl.
Proof.
  revert sprite k. induction cl as [|c cl IH]; intros sprite k Hk Hbit;
    [done|].
  destruct k as [|k]; simpl in *.
  - injection Hk as ->. rewrite Z.shiftl_0_r in Hbit. rewrite Hbit. left.
  - apply elem_of_app. right. apply (IH _ k); [done|].
    rewrite Z.shiftl_shiftl by lia.
    by replace (1 + Z.of_nat k) with (Z.pos (Pos.of_succ_nat k)) by lia.
Qed.

Lemma sprite_points_elem s x y n row col :
  0 ≤ row < n → 0 ≤ col < 8 →
  sprite_bit (mem s (i s + row)) col = true →
  pixel_index (reg s x + col) (reg s y + row)
    ∈ sprite_points s x y (seqZ 0 n).
Proof.
  intros Hrow Hcol Hbit. unfold sprite_points.
  apply list_elem_of_join.
  exists (row_points (reg s x) (reg s y) row (mem s (i s + row)) (seqZ 0 8)).
  split.
  - apply row_points_elem with (Z.to_nat col).
    + apply lookup_seqZ. lia.
    + by rewrite Z2Nat.id by lia.
  - apply (list_elem_of_fmap_2
      (λ row, row_points (reg s x) (reg s y) row (mem s (i s + row))
                         (seqZ 0 8))).
    apply elem_of_seqZ. lia.
Qed.

Lemma sprite_points_same s s' x y rl :
  reg s' x = reg s x → reg s' y = reg s y →
  memory s' = memory s → i s' = i s →
  sprite_points s' x y rl = sprite_points s x y rl.
Proof.
  intros Hx Hy Hm Hi. unfold sprite_points, mem. by rewrite Hx, Hy, Hm, Hi.
Qed.


(** ** Drawing a sprite twice *)

(** C8 (amended): for every display state, every sprite content and every
    location held in coordinate registers X and Y other than VF,
    executing the same Dxyn twice in succession leaves every pixel of the
    display with its original value, and VF ends as 1 if some pixel the
    sprite touches was originally unlit (the first pass lights it and the
    second pass erases it). *)
Theorem draw_twice_restores X Y N rand rand' s :
  nibble X → nibble Y → nibble N → X ≠ 0xf → Y ≠ 0xf →
  length (v s) = 16%nat →
  ∃ s1 s2,
    executeInstruction (instr 0xd X Y N) rand s = Return s1 ∧
    executeInstruction (instr 0xd X Y N) rand' s1 = Return s2 ∧
    (∀ p, pixel (display (renderer s2)) p = pixel (display (renderer s)) p) ∧
    (∀ row col,
       0 ≤ row < N → 0 ≤ col < 8 →
       sprite_bit (mem s (i s + row)) col = true →
       pixel (display (renderer s))
             (pixel_index (reg s X + col) (reg s Y + row)) = 0 →
       reg s2 0xf = 1).
Proof.
  intros HX HY HN HXf HYf Hlen.
  rewrite executeInstruction_draw by done.
  eexists. eexists. split; [reflexivity|].
  rewrite executeInstruction_draw by done. split; [reflexivity|].
  rewrite !draw_with_blit by done.
  assert (HNdec : Z.land (instr 0xd X Y N) 0xf = N).
  { by destruct (decode 0xd X Y N) as (_ & _ & _ & -> & _);
      [unfold nibble; lia|..]. }
  rewrite HNdec.
  set (ps := sprite_points (advance s) X Y (seqZ 0 N)).
  set (d0 := display (renderer (advance s))).
  set (s1 := with_blit (advance s) (blit ps (d0, false))).
  assert (Hps : sprite_points (advance s1) X Y (seqZ 0 N) = ps).
  { apply sprite_points_same; try reflexivity.
    - unfold s1. by rewrite reg_advance, reg_with_blit.
    - unfold s1. by rewrite reg_advance, reg_with_blit. }
  rewrite Hps.
  change (display (renderer (advance s1))) with (blit ps (d0, false)).1.
  split.
  - intros p.
    change (display (renderer (with_blit (advance s1)
              (blit ps ((blit ps (d0, false)).1, false)))))
      with (blit ps ((blit ps (d0, false)).1, false)).1.
    apply blit_twice.
  - intros row col Hrow Hcol Hbit Hoff.
    rewrite flag_with_blit.
    + rewrite (blit_twice_flag ps d0
                 (pixel_index (reg s X + col) (reg s Y + row))); [done| |done].
      by apply (sprite_points_elem (advance s)).
    + unfold s1, with_blit. simpl. by rewrite length_typed_set.
Qed.

Lemma draw_twice_restores_witness :
  ∃ s1 s2,
    executeInstruction (instr 0xd 0 1 5) 0 (boot []) = Return s1 ∧
    executeInstruction (instr 0xd 0 1 5) 0 s1 = Return s2 ∧
    (∀ p, pixel (display (renderer s2)) p =
          pixel (display (renderer (boot []))) p) ∧
    (∀ row col,
       0 ≤ row < 5 → 0 ≤ col < 8 →
       sprite_bit (mem (boot []) (i (boot []) + row)) col = true →
       pixel (display (renderer (boot [])))
             (pixel_index (reg (boot []) 0 + col) (reg (boot []) 1 + row)) = 0 →
       reg s2 0xf = 1).
Proof.
  apply (draw_twice_restores 0 1 5 0 0 (boot []));
    [unfold nibble; lia | unfold nibble; lia | unfold nibble; lia
    | lia | lia | reflexivity].
Defined.

(** C8, as stated, fails in its flag part, and fails altogether when a
    coordinate register is VF.
    (1) With I at the font byte 0x80 and V0 = V1 = 0, a first D011 lights
    pixel 0.  From that display, whose only touched pixel is lit, two more
    D011 restore the pixel, but VF ends as 0, not 1.
    (2) With pixel 1 lit, I at the font byte 0x60 and V1 = 0, two DF11
    leave pixels 2 and 3 lit, which were unlit before, and VF = 0. *)
Lemma draw_twice_counterexample :
  (∃ s s1 s2,
     executeInstruction 0xD011 0 (with_i 13 (boot [])) = Return s ∧
     mem s (i s) = 0x80 ∧ reg s 0 = 0 ∧ reg s 1 = 0 ∧
     pixel (display (renderer s)) (pixel_index 0 0) = 1 ∧
     executeInstruction 0xD011 0 s = Return s1 ∧
     executeInstruction 0xD011 0 s1 = Return s2 ∧
     reg s2 0xf = 0 ∧ reg s2 0xf ≠ 1) ∧
  (∃ s s1 s2,
     executeInstruction 0xD011 0 (with_i 38 (boot [])) = Return s ∧
     pixel (display (renderer s)) 1 = 1 ∧
     pixel (display (renderer s)) 2 = 0 ∧
     pixel (display (renderer s)) 3 = 0 ∧
     executeInstruction 0xDF11 0 (with_i 6 s) = Return s1 ∧
     executeInstruction 0xDF11 0 s1 = Return s2 ∧
     mem s1 (i s1) = 0x60 ∧ i s1 = i (with_i 6 s) ∧ reg s1 1 = reg s 1 ∧
     pixel (display (renderer s2)) 2 = 1 ∧
     pixel (display (renderer s2)) 3 = 1 ∧
     reg s2 0xf = 0).
Proof.
  split.
  - eexists. eexists. eexists.
    split; [vm_compute; reflexivity|].
    do 4 (split; [vm_compute; reflexivity|]).
    split; [vm_compute; reflexivity|].
    split; [vm_compute; reflexivity|].
    split; [vm_compute; reflexivity|].
    vm_compute. discriminate.
  - eexists. eexists. eexists.
    split; [vm_compute; reflexivity|].
    do 3 (split; [vm_compute; reflexivity|]).
    split; [vm_compute; reflexivity|].
    split; [vm_compute; reflexivity|].
    do 3 (split; [vm_compute; reflexivity|]).
    do 2 (split; [vm_compute; reflexivity|]).
    vm_compute; reflexivity.
Qed.


(** * Further properties of the interpreter *)

(** Simplifies register reads through register writes, given that the
    register file has sixteen entries. *)
Ltac reg_simpl :=
  repeat match goal with
  | |- context [reg (advance ?s) ?r] => rewrite (reg_advance s r)
  | |- context [reg (set_reg ?r ?val ?s) ?r'] =>
      first
        [ rewrite (reg_set_reg_ne r r' val s) by (unfold nibble in *; lia)
        | rewrite (reg_set_reg_eq r val s)
            by (rewrite ?length_v_set_reg;
                (done || (unfold nibble in *; lia))) ]
  end.

(** ** Subroutines *)

Lemma executeInstruction_call A B C rand s :
  nibble A → nibble B → nibble C →
  executeInstruction (instr 2 A B C) rand s =
  Return (with_pc (Num (A * 0x100 + B * 0x10 + C))
            (with_stack (push (pc (advance s)) (stack s)) (advance s))).
Proof.
  intros HA HB HC. unfold executeInstruction.
  decode_instr 2 A B C. reflexivity.
Qed.

Lemma pop_push p st : pop (push p st) = (p, st).
Proof.
  unfold pop, push. rewrite last_snoc. f_equal. apply removelast_last.
Qed.

(** X1: a call from program counter P jumps to the operand and appends
    P + 2 to the stack, whatever the depth of the stack; a return executed
    in any later state whose stack is the one the call left jumps to P + 2
    and restores the stack of before the call. *)
Theorem call_return_round_trip A B C P rand rand' s :
  nibble A → nibble B → nibble C → pc s = Num P →
  ∃ s1, executeInstruction (instr 2 A B C) rand s = Return s1 ∧
        pc s1 = Num (A * 0x100 + B * 0x10 + C) ∧
        stack s1 = stack s ++ [Num (P + 2)] ∧
        ∀ t, stack t = stack s1 →
             ∃ t', executeInstruction 0x00EE rand' t = Return t' ∧
                   pc t' = Num (P + 2) ∧ stack t' = stack s.
Proof.
  intros HA HB HC HP. rewrite executeInstruction_call by done.
  eexists. split; [reflexivity|]. split; [reflexivity|].
  simpl stack. rewrite HP. simpl js_add. split; [reflexivity|].
  intros t Ht.
  change (executeInstruction 0x00EE rand' t)
    with (Return (let '(top, rest) := pop (stack t) in
                  with_pc top (with_stack rest (advance t)))).
  rewrite Ht. change (stack s ++ [Num (P + 2)]) with (push (Num (P + 2)) (stack s)).
  rewrite pop_push. eexists. split; [reflexivity|]. done.
Qed.

Lemma call_return_round_trip_witness :
  ∃ s1, executeInstruction (instr 2 3 4 5) 0 (boot []) = Return s1 ∧
        pc s1 = Num (3 * 0x100 + 4 * 0x10 + 5) ∧
        stack s1 = stack (boot []) ++ [Num (0x200 + 2)] ∧
        ∀ t, stack t = stack s1 →
             ∃ t', executeInstruction 0x00EE 0 t = Return t' ∧
                   pc t' = Num (0x200 + 2) ∧ stack t' = stack (boot []).
Proof.
  apply (call_return_round_trip 3 4 5 0x200 0 0 (boot []));
    [unfold nibble; lia | unfold nibble; lia | unfold nibble; lia
    | reflexivity].
Defined.

(** X2: a return with an empty stack raises nothing: the program counter
    becomes [undefined] and the stack stays empty.  From then on every
    fetch reads the word 0 and executing it only turns the program counter
    into NaN, so no instruction of the program runs any more. *)
Theorem return_on_empty_stack rand s :
  stack s = [] →
  ∃ s', executeInstruction 0x00EE rand s = Return s' ∧
        pc s' = Undefined ∧ stack s' = [] ∧
        ∀ t r, pc t = Undefined ∨ pc t = NaN →
               fetch t = 0 ∧
               executeInstruction (fetch t) r t = Return (with_pc NaN t).
Proof.
  intros Hst.
  change (executeInstruction 0x00EE rand s)
    with (Return (let '(top, rest) := pop (stack s) in
                  with_pc top (with_stack rest (advance s)))).
  rewrite Hst. eexists. split; [reflexivity|].
  split; [reflexivity|]. split; [reflexivity|].
  intros t r Hpc.
  assert (Hfetch : fetch t = 0).
  { unfold fetch. by destruct Hpc as [-> | ->]. }
  split; [exact Hfetch|]. rewrite Hfetch.
  change (executeInstruction 0 r t) with (Return (advance t)).
  unfold advance. by destruct Hpc as [-> | ->].
Qed.

Lemma return_on_empty_stack_witness :
  ∃ s', executeInstruction 0x00EE 0 (boot []) = Return s' ∧
        pc s' = Undefined ∧ stack s' = [] ∧
        ∀ t r, pc t = Undefined ∨ pc t = NaN →
               fetch t = 0 ∧
               executeInstruction (fetch t) r t = Return (with_pc NaN t).
Proof. apply (return_on_empty_stack 0 (boot [])). reflexivity. Defined.

(** ** Subtraction, shift right, immediate add *)

Lemma executeInstruction_sub X Y rand s :
  nibble X → nibble Y →
  executeInstruction (instr 8 X Y 5) rand s =
  Return
    (let s := advance s in
     let s := set_reg 0xf 0 s in
     let s := if reg s X >? reg s Y then set_reg 0xf 1 s else s in
     set_reg X (reg s X - reg s Y) s).
Proof.
  intros HX HY. unfold executeInstruction.
  decode_instr 8 X Y 5. reflexivity.
Qed.

(** X3: for registers X and Y other than VF, opcode 8XY5 with Vx = a and
    Vy = b leaves Vx = (a - b) mod 256 and VF = 1 if a > b, else 0 (so
    VF = 0 when a = b). *)
Theorem sub_sets_flag X Y a b rand s :
  nibble X → nibble Y → X ≠ 0xf → Y ≠ 0xf → length (v s) = 16%nat →
  reg s X = a → reg s Y = b →
  ∃ s', executeInstruction (instr 8 X Y 5) rand s = Return s' ∧
        reg s' X = (a - b) mod 256 ∧
        reg s' 0xf = (if a >? b then 1 else 0).
Proof.
  intros HX HY HXf HYf Hlen Ha Hb. rewrite executeInstruction_sub by done.
  eexists. split; [reflexivity|]. cbv zeta. reg_simpl. rewrite Ha, Hb.
  destruct (a >? b); reg_simpl; by rewrite ?Ha, ?Hb.
Qed.

Lemma sub_sets_flag_witness :
  ∃ s', executeInstruction (instr 8 1 2 5) 0
          (set_reg 1 5 (set_reg 2 7 (boot []))) = Return s' ∧
        reg s' 1 = (5 - 7) mod 256 ∧
        reg s' 0xf = (if 5 >? 7 then 1 else 0).
Proof.
  apply (sub_sets_flag 1 2 5 7 0 (set_reg 1 5 (set_reg 2 7 (boot []))));
    [unfold nibble; lia | unfold nibble; lia | lia | lia
    | reflexivity | reflexivity | reflexivity].
Defined.

(** X4: when the second operand of 8XY5 is VF itself (opcode 8XF5, X other
    than 0xF), the handler has already overwritten VF when it reads it:
    the flag becomes 1 if Vx > 0, else 0, and that new flag, not the old
    value of VF, is what is subtracted from Vx. *)
Theorem sub_reads_overwritten_flag X a rand s :
  nibble X → X ≠ 0xf → length (v s) = 16%nat → reg s X = a →
  ∃ s', executeInstruction (instr 8 X 0xf 5) rand s = Return s' ∧
        reg s' 0xf = (if a >? 0 then 1 else 0) ∧
        reg s' X = (a - (if a >? 0 then 1 else 0)) mod 256.
Proof.
  intros HX HXf Hlen Ha.
  rewrite executeInstruction_sub by (done || apply nibble_0xf).
  eexists. split; [reflexivity|]. cbv zeta. reg_simpl. rewrite Ha.
  change (0 mod 256) with 0.
  destruct (a >? 0); reg_simpl; by rewrite ?Ha.
Qed.

Lemma sub_reads_overwritten_flag_witness :
  ∃ s', executeInstruction (instr 8 1 0xf 5) 0
          (set_reg 1 5 (set_reg 0xf 3 (boot []))) = Return s' ∧
        reg s' 0xf = (if 5 >? 0 then 1 else 0) ∧
        reg s' 1 = (5 - (if 5 >? 0 then 1 else 0)) mod 256.
Proof.
  apply (sub_reads_overwritten_flag 1 5 0
           (set_reg 1 5 (set_reg 0xf 3 (boot []))));
    [unfold nibble; lia | lia | reflexivity | reflexivity].
Defined.


Lemma executeInstruction_subn X Y rand s :
  nibble X → nibble Y →
  executeInstruction (instr 8 X Y 7) rand s =
  Return
    (let s := advance s in
     let s := set_reg 0xf 0 s in
     let s := if reg s Y >? reg s X then set_reg 0xf 1 s else s in
     set_reg X (reg s Y - reg s X) s).
Proof.
  intros HX HY. unfold executeInstruction.
  decode_instr 8 X Y 7. reflexivity.
Qed.

(** X5: for registers X and Y other than VF, opcode 8XY7 with Vx = a and
    Vy = b leaves Vx = (b - a) mod 256 and VF = 1 if b > a, else 0. *)
Theorem subn_sets_flag X Y a b rand s :
  nibble X → nibble Y → X ≠ 0xf → Y ≠ 0xf → length (v s) = 16%nat →
  reg s X = a → reg s Y = b →
  ∃ s', executeInstruction (instr 8 X Y 7) rand s = Return s' ∧
        reg s' X = (b - a) mod 256 ∧
        reg s' 0xf = (if b >? a then 1 else 0).
Proof.
  intros HX HY HXf HYf Hlen Ha Hb. rewrite executeInstruction_subn by done.
  eexists. split; [reflexivity|]. cbv zeta. reg_simpl. rewrite Ha, Hb.
  destruct (b >? a); reg_simpl; by rewrite ?Ha, ?Hb.
Qed.

Lemma subn_sets_flag_witness :
  ∃ s', executeInstruction (instr 8 1 2 7) 0
          (set_reg 1 5 (set_reg 2 7 (boot []))) = Return s' ∧
        reg s' 1 = (7 - 5) mod 256 ∧
        reg s' 0xf = (if 7 >? 5 then 1 else 0).
Proof.
  apply (subn_sets_flag 1 2 5 7 0 (set_reg 1 5 (set_reg 2 7 (boot []))));
    [unfold nibble; lia | unfold nibble; lia | lia | lia
    | reflexivity | reflexivity | reflexivity].
Defined.

Lemma executeInstruction_shr X Y rand s :
  nibble X → nibble Y →
  executeInstruction (instr 8 X Y 6) rand s =
  Return
    (let s := advance s in
     let s := set_reg 0xf (Z.land (reg s X) 0x1) s in
     set_reg X (reg s X ≫ 1) s).
Proof.
  intros HX HY. unfold executeInstruction.
  decode_instr 8 X Y 6. reflexivity.
Qed.

(** X6: for a register X other than VF holding the byte v, opcode 8XY6
    leaves VF = v mod 2 (the bit shifted out) and Vx = v / 2; Vy plays no
    part. *)
Theorem shr_keeps_low_bit X Y vx rand s :
  nibble X → nibble Y → X ≠ 0xf → length (v s) = 16%nat →
  reg s X = vx → byte vx →
  ∃ s', executeInstruction (instr 8 X Y 6) rand s = Return s' ∧
        reg s' 0xf = vx mod 2 ∧ reg s' X = vx / 2.
Proof.
  intros HX HY HXf Hlen Hvx [Hlo Hhi].
  rewrite executeInstruction_shr by done.
  eexists. split; [reflexivity|]. cbv zeta. reg_simpl. rewrite Hvx.
  change 1 with (Z.ones 1) at 1. rewrite Z.land_ones by lia.
  rewrite Z.shiftr_div_pow2 by lia. change (2 ^ 1) with 2.
  pose proof (Z.mod_pos_bound vx 2 ltac:(lia)).
  split; apply Z.mod_small; [lia|].
  split; [apply Z.div_pos; lia|].
  apply Z.div_lt_upper_bound; lia.
Qed.

Lemma shr_keeps_low_bit_witness :
  ∃ s', executeInstruction (instr 8 1 2 6) 0
          (set_reg 1 7 (boot [])) = Return s' ∧
        reg s' 0xf = 7 mod 2 ∧ reg s' 1 = 7 / 2.
Proof.
  apply (shr_keeps_low_bit 1 2 7 0 (set_reg 1 7 (boot [])));
    [unfold nibble; lia | unfold nibble; lia | lia | reflexivity
    | reflexivity | unfold byte; lia].
Defined.

Lemma executeInstruction_add_immediate X B C rand s :
  nibble X → nibble B → nibble C →
  executeInstruction (instr 7 X B C) rand s =
  Return (set_reg X (reg (advance s) X + (B * 0x10 + C)) (advance s)).
Proof.
  intros HX HB HC. unfold executeInstruction.
  decode_instr 7 X B C. reflexivity.
Qed.

(** X7: opcode 7XKK leaves Vx = (Vx + KK) mod 256 and every other
    register as it was: an overflow wraps around and no carry is recorded
    in VF. *)
Theorem add_immediate_wraps X B C vx rand s :
  nibble X → nibble B → nibble C → length (v s) = 16%nat → reg s X = vx →
  ∃ s', executeInstruction (instr 7 X B C) rand s = Return s' ∧
        reg s' X = (vx + (B * 0x10 + C)) mod 256 ∧
        ∀ r, r ≠ X → reg s' r = reg s r.
Proof.
  intros HX HB HC Hlen Hvx. rewrite executeInstruction_add_immediate by done.
  eexists. split; [reflexivity|]. reg_simpl. rewrite Hvx.
  split; [reflexivity|]. intros r Hr. by rewrite reg_set_reg_ne.
Qed.

Lemma add_immediate_wraps_witness :
  ∃ s', executeInstruction (instr 7 0xf 0xf 0xf) 0
          (set_reg 0xf 2 (boot [])) = Return s' ∧
        reg s' 0xf = (2 + (0xf * 0x10 + 0xf)) mod 256 ∧
        ∀ r, r ≠ 0xf → reg s' r = reg (set_reg 0xf 2 (boot [])) r.
Proof.
  apply (add_immediate_wraps 0xf 0xf 0xf 2 0 (set_reg 0xf 2 (boot [])));
    [unfold nibble; lia | unfold nibble; lia | unfold nibble; lia
    | reflexivity | reflexivity].
Defined.

(** ** Bitwise operations *)

Lemma forallb_byte (p : Z → bool) :
  forallb p (seqZ 0 256) = true → ∀ k, byte k → p k = true.
Proof.
  intros H k Hk. rewrite forallb_forall in H. apply H.
  apply list_elem_of_In, elem_of_seqZ. unfold byte in Hk. lia.
Qed.

Lemma bitwise_bytes_all :
  forallb (λ a, forallb (λ b,
    (Z.lor a b <? 256) && (Z.land a b <? 256) && (Z.lxor a b <? 256)
    && (0 <=? Z.lor a b) && (0 <=? Z.land a b) && (0 <=? Z.lxor a b)
    && (Z.lor (a ≪ 8) b =? a * 256 + b))
    (seqZ 0 256)) (seqZ 0 256) = true.
Proof. vm_compute. reflexivity. Qed.

Lemma bitwise_bytes a b :
  byte a → byte b →
  byte (Z.lor a b) ∧ byte (Z.land a b) ∧ byte (Z.lxor a b) ∧
  Z.lor (a ≪ 8) b = a * 256 + b.
Proof.
  intros Ha Hb.
  pose proof (forallb_byte _ (forallb_byte _ bitwise_bytes_all a Ha) b Hb)
    as H.
  repeat (apply andb_prop in H; destruct H as [H ?]).
  unfold byte. repeat split; lia.
Qed.

Lemma executeInstruction_logic X Y n rand s :
  nibble X → nibble Y → n = 1 ∨ n = 2 ∨ n = 3 →
  executeInstruction (instr 8 X Y n) rand s =
  Return
    (set_reg X
       ((if n =? 1 then Z.lor else if n =? 2 then Z.land else Z.lxor)
          (reg (advance s) X) (reg (advance s) Y))
       (advance s)).
Proof.
  intros HX HY Hn. unfold executeInstruction.
  destruct Hn as [-> | [-> | ->]].
  - decode_instr 8 X Y 1. reflexivity.
  - decode_instr 8 X Y 2. reflexivity.
  - decode_instr 8 X Y 3. reflexivity.
Qed.

(** X8: for bytes a = Vx and b = Vy, opcodes 8XY1, 8XY2 and 8XY3 leave in
    Vx the bitwise OR, AND and XOR of a and b, and change no other
    register; in particular VF is not reset. *)
Theorem logic_ops X Y a b rand s :
  nibble X → nibble Y → length (v s) = 16%nat →
  reg s X = a → reg s Y = b → byte a → byte b →
  (∃ s', executeInstruction (instr 8 X Y 1) rand s = Return s' ∧
         reg s' X = Z.lor a b ∧ ∀ r, r ≠ X → reg s' r = reg s r) ∧
  (∃ s', executeInstruction (instr 8 X Y 2) rand s = Return s' ∧
         reg s' X = Z.land a b ∧ ∀ r, r ≠ X → reg s' r = reg s r) ∧
  (∃ s', executeInstruction (instr 8 X Y 3) rand s = Return s' ∧
         reg s' X = Z.lxor a b ∧ ∀ r, r ≠ X → reg s' r = reg s r).
Proof.
  intros HX HY Hlen Ha Hb Hba Hbb.
  destruct (bitwise_bytes a b Hba Hbb) as (Hor & Hand & Hxor & _).
  repeat split;
    (rewrite executeInstruction_logic by (done || lia);
     eexists; split; [reflexivity|]; simpl Z.eqb; cbv iota;
     reg_simpl; rewrite Ha, Hb;
     split; [apply Z.mod_small; assumption
            |intros r Hr; by rewrite reg_set_reg_ne]).
Qed.

Lemma logic_ops_witness :
  (∃ s', executeInstruction (instr 8 1 2 1) 0
           (set_reg 1 0x0c (set_reg 2 0x0a (boot []))) = Return s' ∧
         reg s' 1 = Z.lor 0x0c 0x0a ∧
         ∀ r, r ≠ 1 →
              reg s' r = reg (set_reg 1 0x0c (set_reg 2 0x0a (boot []))) r) ∧
  (∃ s', executeInstruction (instr 8 1 2 2) 0
           (set_reg 1 0x0c (set_reg 2 0x0a (boot []))) = Return s' ∧
         reg s' 1 = Z.land 0x0c 0x0a ∧
         ∀ r, r ≠ 1 →
              reg s' r = reg (set_reg 1 0x0c (set_reg 2 0x0a (boot []))) r) ∧
  (∃ s', executeInstruction (instr 8 1 2 3) 0
           (set_reg 1 0x0c (set_reg 2 0x0a (boot []))) = Return s' ∧
         reg s' 1 = Z.lxor 0x0c 0x0a ∧
         ∀ r, r ≠ 1 →
              reg s' r = reg (set_reg 1 0x0c (set_reg 2 0x0a (boot []))) r).
Proof.
  apply (logic_ops 1 2 0x0c 0x0a 0
           (set_reg 1 0x0c (set_reg 2 0x0a (boot []))));
    [unfold nibble; lia | unfold nibble; lia | reflexivity | reflexivity
    | reflexivity | unfold byte; lia | unfold byte; lia].
Defined.


(** ** Conditional skips *)

Lemma executeInstruction_skip_immediate X B C rand s :
  nibble X → nibble B → nibble C →
  executeInstruction (instr 3 X B C) rand s =
    Return (skip_if (reg (advance s) X =? B * 0x10 + C) (advance s)) ∧
  executeInstruction (instr 4 X B C) rand s =
    Return (skip_if (negb (reg (advance s) X =? B * 0x10 + C)) (advance s)).
Proof.
  intros HX HB HC. unfold executeInstruction. split.
  - decode_instr 3 X B C. reflexivity.
  - decode_instr 4 X B C. reflexivity.
Qed.

(** X9: from program counter P, opcode 3XKK continues at P + 4 when
    Vx = KK and at P + 2 otherwise; opcode 4XKK does the opposite.  Both
    leave the registers untouched. *)
Theorem skip_on_immediate X B C vx P rand s :
  nibble X → nibble B → nibble C → reg s X = vx → pc s = Num P →
  (∃ s', executeInstruction (instr 3 X B C) rand s = Return s' ∧
         pc s' = Num (if vx =? B * 0x10 + C then P + 4 else P + 2) ∧
         v s' = v s) ∧
  (∃ s', executeInstruction (instr 4 X B C) rand s = Return s' ∧
         pc s' = Num (if vx =? B * 0x10 + C then P + 2 else P + 4) ∧
         v s' = v s).
Proof.
  intros HX HB HC Hvx HP.
  destruct (executeInstruction_skip_immediate X B C rand s) as [-> ->];
    [done..|].
  rewrite reg_advance, Hvx. unfold skip_if, advance.
  split; eexists; (split; [reflexivity|]);
    destruct (vx =? B * 16 + C); simpl; rewrite HP; simpl;
    (split; [f_equal; lia|reflexivity]).
Qed.

Lemma skip_on_immediate_witness :
  (∃ s', executeInstruction (instr 3 1 4 2) 0
           (set_reg 1 0x42 (boot [])) = Return s' ∧
         pc s' = Num (if 0x42 =? 4 * 0x10 + 2 then 0x200 + 4 else 0x200 + 2) ∧
         v s' = v (set_reg 1 0x42 (boot []))) ∧
  (∃ s', executeInstruction (instr 4 1 4 2) 0
           (set_reg 1 0x42 (boot [])) = Return s' ∧
         pc s' = Num (if 0x42 =? 4 * 0x10 + 2 then 0x200 + 2 else 0x200 + 4) ∧
         v s' = v (set_reg 1 0x42 (boot []))).
Proof.
  apply (skip_on_immediate 1 4 2 0x42 0x200 0 (set_reg 1 0x42 (boot [])));
    [unfold nibble; lia | unfold nibble; lia | unfold nibble; lia
    | reflexivity | reflexivity].
Defined.

Lemma executeInstruction_skip_register X Y n rand s :
  nibble X → nibble Y → nibble n →
  executeInstruction (instr 5 X Y n) rand s =
    Return (skip_if (reg (advance s) X =? reg (advance s) Y) (advance s)) ∧
  executeInstruction (instr 9 X Y n) rand s =
    Return (skip_if (negb (reg (advance s) X =? reg (advance s) Y))
              (advance s)).
Proof.
  intros HX HY Hn. unfold executeInstruction. split.
  - decode_instr 5 X Y n. reflexivity.
  - decode_instr 9 X Y n. reflexivity.
Qed.

(** X10: from program counter P, every word 5XYn continues at P + 4 when
    Vx = Vy and at P + 2 otherwise, and every word 9XYn does the opposite.
    The low nibble n is not examined: the words with n other than 0, which
    the instruction set does not define, are executed like 5XY0 and
    9XY0. *)
Theorem skip_on_register X Y n a b P rand s :
  nibble X → nibble Y → nibble n →
  reg s X = a → reg s Y = b → pc s = Num P →
  (∃ s', executeInstruction (instr 5 X Y n) rand s = Return s' ∧
         pc s' = Num (if a =? b then P + 4 else P + 2) ∧ v s' = v s) ∧
  (∃ s', executeInstruction (instr 9 X Y n) rand s = Return s' ∧
         pc s' = Num (if a =? b then P + 2 else P + 4) ∧ v s' = v s).
Proof.
  intros HX HY Hn Ha Hb HP.
  destruct (executeInstruction_skip_register X Y n rand s) as [-> ->];
    [done..|].
  rewrite !reg_advance, Ha, Hb. unfold skip_if, advance.
  split; eexists; (split; [reflexivity|]);
    destruct (a =? b); simpl; rewrite HP; simpl;
    (split; [f_equal; lia|reflexivity]).
Qed.

Lemma skip_on_register_witness :
  (∃ s', executeInstruction (instr 5 1 2 7) 0
           (set_reg 1 9 (boot [])) = Return s' ∧
         pc s' = Num (if 9 =? 0 then 0x200 + 4 else 0x200 + 2) ∧
         v s' = v (set_reg 1 9 (boot []))) ∧
  (∃ s', executeInstruction (instr 9 1 2 7) 0
           (set_reg 1 9 (boot [])) = Return s' ∧
         pc s' = Num (if 9 =? 0 then 0x200 + 2 else 0x200 + 4) ∧
         v s' = v (set_reg 1 9 (boot []))).
Proof.
  apply (skip_on_register 1 2 7 9 0 0x200 0 (set_reg 1 9 (boot [])));
    [unfold nibble; lia | unfold nibble; lia | unfold nibble; lia
    | reflexivity | reflexivity | reflexivity].
Defined.

(** ** Memory cells *)

Lemma mem_set_mem_eq a val s :
  0 ≤ a < 4096 → length (memory s) = 4096%nat →
  mem (set_mem a val s) a = val mod 256.
Proof.
  intros Ha Hlen. unfold mem, set_mem. simpl.
  rewrite typed_get_set_eq; [done|lia|lia].
Qed.

Lemma mem_set_mem_ne a a' val s : a ≠ a' → mem (set_mem a val s) a' = mem s a'.
Proof.
  intros Hne. unfold mem, set_mem. simpl. by rewrite typed_get_set_ne.
Qed.

Lemma length_memory_set_mem a val s :
  length (memory (set_mem a val s)) = length (memory s).
Proof. unfold set_mem. simpl. apply length_typed_set. Qed.

(** ** Decimal digits *)

Lemma executeInstruction_bcd X rand s :
  nibble X →
  executeInstruction (instr 0xf X 3 3) rand s =
  Return
    (let s := advance s in
     let s := set_mem (i s) (reg s X / 100) s in
     let s := set_mem (i s + 1) (reg s X mod 100 / 10) s in
     set_mem (i s + 2) (reg s X mod 10) s).
Proof.
  intros HX. unfold executeInstruction.
  decode_instr 0xf X 3 3. reflexivity.
Qed.

(** X11: with I, I+1 and I+2 inside the memory, opcode FX33 stores the
    hundreds, tens and ones digit of the byte in Vx at I, I+1 and I+2;
    the three cells recompose the value, and neither the registers, nor I,
    nor any other memory cell changes. *)
Theorem bcd_digits X vx rand s :
  nibble X → reg s X = vx → byte vx →
  0 ≤ i s → i s + 2 < 4096 → length (memory s) = 4096%nat →
  ∃ s', executeInstruction (instr 0xf X 3 3) rand s = Return s' ∧
        mem s' (i s) = vx / 100 ∧
        mem s' (i s + 1) = vx mod 100 / 10 ∧
        mem s' (i s + 2) = vx mod 10 ∧
        100 * mem s' (i s) + 10 * mem s' (i s + 1) + mem s' (i s + 2) = vx ∧
        v s' = v s ∧ i s' = i s ∧
        ∀ a, a < i s ∨ i s + 2 < a →
             typed_get (memory s') a = typed_get (memory s) a.
Proof.
  intros HX Hvx [Hlo Hhi] Hi0 Hi2 Hlen.
  rewrite executeInstruction_bcd by done.
  eexists. split; [reflexivity|]. cbv zeta.
  change (i (set_mem _ _ (set_mem _ _ (advance s)))) with (i s).
  change (i (set_mem _ _ (advance s))) with (i s).
  change (i (advance s)) with (i s).
  change (reg (set_mem _ _ (set_mem _ _ (advance s))) X) with (reg s X).
  change (reg (set_mem _ _ (advance s)) X) with (reg s X).
  change (reg (advance s) X) with (reg s X).
  rewrite Hvx.
  assert (Hh : vx / 100 mod 256 = vx / 100).
  { apply Z.mod_small. split; [apply Z.div_pos; lia|].
    apply Z.div_lt_upper_bound; lia. }
  assert (Ht : vx mod 100 / 10 mod 256 = vx mod 100 / 10).
  { pose proof (Z.mod_pos_bound vx 100 ltac:(lia)).
    apply Z.mod_small. split; [apply Z.div_pos; lia|].
    apply Z.div_lt_upper_bound; lia. }
  assert (Ho : vx mod 10 mod 256 = vx mod 10).
  { pose proof (Z.mod_pos_bound vx 10 ltac:(lia)).
    apply Z.mod_small. lia. }
  assert (H0 : mem (set_mem (i s + 2) (vx mod 10)
                 (set_mem (i s + 1) (vx mod 100 / 10)
                    (set_mem (i s) (vx / 100) (advance s)))) (i s)
               = vx / 100).
  { rewrite !mem_set_mem_ne by lia.
    rewrite mem_set_mem_eq by (done || lia). exact Hh. }
  assert (H1 : mem (set_mem (i s + 2) (vx mod 10)
                 (set_mem (i s + 1) (vx mod 100 / 10)
                    (set_mem (i s) (vx / 100) (advance s)))) (i s + 1)
               = vx mod 100 / 10).
  { rewrite mem_set_mem_ne by lia.
    rewrite mem_set_mem_eq
      by (rewrite ?length_memory_set_mem; (done || lia)).
    exact Ht. }
  assert (H2 : mem (set_mem (i s + 2) (vx mod 10)
                 (set_mem (i s + 1) (vx mod 100 / 10)
                    (set_mem (i s) (vx / 100) (advance s)))) (i s + 2)
               = vx mod 10).
  { rewrite mem_set_mem_eq
      by (rewrite ?length_memory_set_mem; (done || lia)).
    exact Ho. }
  rewrite H0, H1, H2.
  split; [done|]. split; [done|]. split; [done|].
  split.
  { pose proof (Z.div_mod vx 100 ltac:(lia)).
    pose proof (Z.div_mod (vx mod 100) 10 ltac:(lia)).
    assert (Hmm : (vx mod 100) mod 10 = vx mod 10)
      by (apply Z.mod_mod_divide; exists 10; lia).
    lia. }
  split; [done|]. split; [done|].
  intros a Ha. unfold set_mem. simpl.
  rewrite !typed_get_set_ne by lia. done.
Qed.

Lemma bcd_digits_witness :
  ∃ s', executeInstruction (instr 0xf 1 3 3) 0
          (with_i 0x300 (set_reg 1 255 (boot []))) = Return s' ∧
        mem s' (i (with_i 0x300 (set_reg 1 255 (boot [])))) = 255 / 100 ∧
        mem s' (i (with_i 0x300 (set_reg 1 255 (boot []))) + 1)
          = 255 mod 100 / 10 ∧
        mem s' (i (with_i 0x300 (set_reg 1 255 (boot []))) + 2)
          = 255 mod 10 ∧
        100 * mem s' (i (with_i 0x300 (set_reg 1 255 (boot []))))
          + 10 * mem s' (i (with_i 0x300 (set_reg 1 255 (boot []))) + 1)
          + mem s' (i (with_i 0x300 (set_reg 1 255 (boot []))) + 2) = 255 ∧
        v s' = v (with_i 0x300 (set_reg 1 255 (boot []))) ∧
        i s' = i (with_i 0x300 (set_reg 1 255 (boot []))) ∧
        ∀ a, a < i (with_i 0x300 (set_reg 1 255 (boot []))) ∨
             i (with_i 0x300 (set_reg 1 255 (boot []))) + 2 < a →
             typed_get (memory s') a =
             typed_get (memory (with_i 0x300 (set_reg 1 255 (boot [])))) a.
Proof.
  apply (bcd_digits 1 255 0 (with_i 0x300 (set_reg 1 255 (boot []))));
    [unfold nibble; lia | reflexivity | unfold byte; lia
    | vm_compute; discriminate | reflexivity | reflexivity].
Defined.


(** ** Block store followed by block load *)

(** What the store loop writes, for distinct register indices whose cells
    are inside the memory. *)
Lemma store_loop_content (l : list Z) (s : CPU) :
  NoDup l → length (memory s) = 4096%nat →
  (∀ r, r ∈ l → 0 ≤ i s + r < 4096) →
  ∀ r, r ∈ l →
    mem (foldl (λ s r, set_mem (i s + r) (reg s r) s) s l) (i s + r)
    = reg s r mod 256.
Proof.
  revert s. induction l as [|r0 l IH]; intros s Hnd Hlen Hin r Hr.
  - by apply elem_of_nil in Hr.
  - apply NoDup_cons in Hnd as [Hr0 Hnd]. cbn [foldl].
    set (s1 := set_mem (i s + r0) (reg s r0) s).
    apply elem_of_cons in Hr as [->|Hr].
    + destruct (store_loop_frame l s1) as (_ & _ & Hm).
      unfold mem. rewrite Hm.
      * unfold s1, set_mem. simpl.
        rewrite typed_get_set_eq; [done| |]; specialize (Hin r0); 
          pose proof (Hin ltac:(left)); lia.
      * intros r' Hr'. simpl. intros Heq.
        assert (r0 = r') by lia. by subst.
    + change (i s) with (i s1). change (reg s r) with (reg s1 r).
      apply IH; [done| |intros r' Hr'; apply Hin; by right|done].
      unfold s1. by rewrite length_memory_set_mem.
Qed.

(** What the load loop reads, for distinct register indices. *)
Lemma load_loop_content (l : list Z) (s : CPU) :
  NoDup l → length (v s) = 16%nat → (∀ r, r ∈ l → nibble r) →
  ∀ r, r ∈ l →
    reg (foldl (λ s r, set_reg r (mem s (i s + r)) s) s l) r
    = mem s (i s + r) mod 256.
Proof.
  revert s. induction l as [|r0 l IH]; intros s Hnd Hlen Hin r Hr.
  - by apply elem_of_nil in Hr.
  - apply NoDup_cons in Hnd as [Hr0 Hnd]. cbn [foldl].
    set (s1 := set_reg r0 (mem s (i s + r0)) s).
    apply elem_of_cons in Hr as [->|Hr].
    + destruct (load_loop_frame l s1) as (_ & _ & Hv).
      unfold reg. rewrite Hv by done.
      fold (reg s1 r0). unfold s1.
      apply reg_set_reg_eq; [|done]. apply Hin. left.
    + change (mem s (i s + r)) with (mem s1 (i s1 + r)).
      apply IH; [done| |intros r' Hr'; apply Hin; by right|done].
      unfold s1. by rewrite length_v_set_reg.
Qed.

Lemma mem_byte s a : Forall byte (memory s) → byte (mem s a).
Proof.
  intros Hb. unfold mem, typed_get.
  destruct (0 <=? a); [|unfold byte; simpl; lia].
  destruct (memory s !! Z.to_nat a) as [b|] eqn:Hl; [|unfold byte; simpl; lia].
  simpl. by eapply Forall_lookup_1.
Qed.

Lemma reg_byte s r : Forall byte (v s) → byte (reg s r).
Proof.
  intros Hb. unfold reg, typed_get.
  destruct (0 <=? r); [|unfold byte; simpl; lia].
  destruct (v s !! Z.to_nat r) as [b|] eqn:Hl; [|unfold byte; simpl; lia].
  simpl. by eapply Forall_lookup_1.
Qed.

(** X12: with the cells I..I+X inside the memory, FX55 copies V0..VX to
    them, and an FX65 executed in any later state with that memory and
    that I (whatever its registers hold by then) gives V0..VX the values
    they had at the store. *)
Theorem store_then_load X rand rand' s :
  nibble X → arrays_ok s → 0 ≤ i s → i s + X < 4096 →
  ∃ s1, executeInstruction (instr 0xf X 5 5) rand s = Return s1 ∧
        (∀ r, 0 ≤ r ≤ X → mem s1 (i s + r) = reg s r) ∧
        ∀ t, memory t = memory s1 → i t = i s → length (v t) = 16%nat →
             ∃ t', executeInstruction (instr 0xf X 6 5) rand' t = Return t' ∧
                   ∀ r, 0 ≤ r ≤ X → reg t' r = reg s r.
Proof.
  intros HX (Hlv & Hlm & Hbv & Hbm) Hi0 HiX.
  rewrite executeInstruction_store by done.
  eexists. split; [reflexivity|].
  assert (Hstore : ∀ r, 0 ≤ r ≤ X →
            mem (store_registers X (advance s)) (i s + r) = reg s r).
  { intros r Hr. unfold store_registers.
    change (i s) with (i (advance s)).
    rewrite store_loop_content.
    - rewrite reg_advance. apply Z.mod_small. by apply reg_byte.
    - apply NoDup_seqZ.
    - done.
    - intros r' Hr'%elem_of_seqZ. simpl. lia.
    - apply elem_of_seqZ. lia. }
  split; [exact Hstore|].
  intros t Hmt Hit Hlt. rewrite executeInstruction_load by done.
  eexists. split; [reflexivity|]. intros r Hr.
  unfold load_registers. rewrite load_loop_content.
  - unfold mem at 1. simpl memory. simpl i. rewrite Hmt, Hit.
    fold (mem (store_registers X (advance s)) (i s + r)).
    rewrite Hstore by done. apply Z.mod_small. by apply reg_byte.
  - apply NoDup_seqZ.
  - done.
  - intros r' Hr'%elem_of_seqZ. unfold nibble in *. lia.
  - apply elem_of_seqZ. lia.
Qed.

Lemma store_then_load_witness :
  ∃ s1, executeInstruction (instr 0xf 2 5 5) 0
          (set_reg 1 7 (boot [])) = Return s1 ∧
        (∀ r, 0 ≤ r ≤ 2 →
              mem s1 (i (set_reg 1 7 (boot [])) + r)
              = reg (set_reg 1 7 (boot [])) r) ∧
        ∀ t, memory t = memory s1 →
             i t = i (set_reg 1 7 (boot [])) →
             length (v t) = 16%nat →
             ∃ t', executeInstruction (instr 0xf 2 6 5) 0 t = Return t' ∧
                   ∀ r, 0 ≤ r ≤ 2 →
                        reg t' r
                        = reg (set_reg 1 7 (boot [])) r.
Proof.
  apply (store_then_load 2 0 0 (set_reg 1 7 (boot [])));
    [unfold nibble; lia
    | apply arrays_ok_set_reg, arrays_ok_boot
    | vm_compute; discriminate | vm_compute; reflexivity].
Defined.

(** X13: with the address register at or beyond the end of the memory
    (which FX1E can reach), nothing fails: FX55 leaves the memory as it
    is, and FX65 sets V0..VX to 0. *)
Theorem block_transfer_beyond_memory X rand s :
  nibble X → length (memory s) = 4096%nat → length (v s) = 16%nat →
  4096 ≤ i s →
  (∃ s', executeInstruction (instr 0xf X 5 5) rand s = Return s' ∧
         memory s' = memory s) ∧
  (∃ s', executeInstruction (instr 0xf X 6 5) rand s = Return s' ∧
         ∀ r, 0 ≤ r ≤ X → reg s' r = 0).
Proof.
  intros HX Hlm Hlv Hi. split.
  - rewrite executeInstruction_store by done.
    eexists. split; [reflexivity|]. unfold store_registers.
    assert (Hloop : ∀ l t, Forall (λ r, 0 ≤ r) l →
              length (memory t) = 4096%nat → 4096 ≤ i t →
              memory (foldl (λ s r, set_mem (i s + r) (reg s r) s) t l)
              = memory t).
    { induction l as [|r l IH]; intros t Hl Hlt Hit; [done|].
      apply Forall_cons in Hl as [Hr Hl]. cbn [foldl].
      assert (Hsame : memory (set_mem (i t + r) (reg t r) t) = memory t).
      { unfold set_mem, typed_set. simpl.
        destruct (0 <=? i t + r); [|done].
        apply list_insert_ge. lia. }
      rewrite IH; [done|done| |done]. by rewrite Hsame. }
    rewrite Hloop; [done| |done|done].
    apply Forall_forall. intros r Hr%elem_of_seqZ. lia.
  - rewrite executeInstruction_load by done.
    eexists. split; [reflexivity|]. intros r Hr.
    unfold load_registers. rewrite load_loop_content.
    + unfold mem, typed_get. simpl.
      destruct (0 <=? i s + r); [|done].
      rewrite lookup_ge_None_2 by lia. done.
    + apply NoDup_seqZ.
    + done.
    + intros r' Hr'%elem_of_seqZ. unfold nibble in *. lia.
    + apply elem_of_seqZ. lia.
Qed.

Lemma block_transfer_beyond_memory_witness :
  (∃ s', executeInstruction (instr 0xf 2 5 5) 0
           (with_i 5000 (set_reg 1 7 (boot []))) = Return s' ∧
         memory s' = memory (with_i 5000 (set_reg 1 7 (boot [])))) ∧
  (∃ s', executeInstruction (instr 0xf 2 6 5) 0
           (with_i 5000 (set_reg 1 7 (boot []))) = Return s' ∧
         ∀ r, 0 ≤ r ≤ 2 → reg s' r = 0).
Proof.
  apply (block_transfer_beyond_memory 2 0
           (with_i 5000 (set_reg 1 7 (boot []))));
    [unfold nibble; lia | vm_compute; reflexivity | vm_compute; reflexivity
    | vm_compute; discriminate].
Defined.


(** ** The pixel toggle *)

Lemma erase_iff a : (Z.lxor a 1 =? 0) = true ↔ a = 1.
Proof.
  split.
  - intros H. apply Z.eqb_eq in H.
    destruct (Z.lxor_eq_0_iff a 1) as [Heq _]. by apply Heq.
  - intros ->. reflexivity.
Qed.

(** X14: [setPixel(x, y)] changes the display at one index only; for
    coordinates inside the display that index is x + 64 y, below 2048.
    It reports an erase exactly when the pixel was lit (held 1), and a
    second call with the same coordinates puts every pixel back, so of the
    two calls on a pixel holding 0 or 1 exactly one reports an erase. *)
Theorem setPixel_toggles x y r :
  ∃ r1 e1 r2 e2,
    setPixel x y r = (r1, e1) ∧ setPixel x y r1 = (r2, e2) ∧
    (∀ p, p ≠ pixel_index x y →
          display r1 !! p = display r !! p) ∧
    (0 ≤ x < 64 → 0 ≤ y < 32 →
       pixel_index x y = x + 64 * y ∧ 0 ≤ pixel_index x y < 2048) ∧
    pixel (display r1) (pixel_index x y)
      = Z.lxor (pixel (display r) (pixel_index x y)) 1 ∧
    (e1 = true ↔ pixel (display r) (pixel_index x y) = 1) ∧
    (∀ p, pixel (display r2) p = pixel (display r) p) ∧
    (e2 = true ↔ pixel (display r) (pixel_index x y) = 0).
Proof.
  rewrite setPixel_flip. eexists. eexists. eexists. eexists.
  split; [reflexivity|]. rewrite setPixel_flip. split; [reflexivity|].
  simpl display. split; [|split; [|split; [|split; [|split]]]].
  - intros p Hp. unfold flip. by rewrite lookup_insert_ne.
  - intros Hx Hy. unfold pixel_index, cols, rows.
    destruct (Z.gtb_spec x 64), (Z.ltb_spec x 0),
      (Z.gtb_spec y 32), (Z.ltb_spec y 0); lia.
  - apply pixel_flip_eq.
  - apply erase_iff.
  - intros p. destruct (Z.eq_dec (pixel_index x y) p) as [<-|Hne].
    + rewrite !pixel_flip_eq. apply lxor_1_twice.
    + by rewrite !pixel_flip_ne.
  - rewrite erase_iff, pixel_flip_eq.
    split; [intros H; by rewrite <- (lxor_1_twice (pixel _ _)), H
           |by intros ->].
Qed.

(** ** Timers *)

(** X15: [n] timer ticks take a non-negative delay timer d to
    max 0 (d - n) and a non-negative sound timer likewise, each
    independently of the other: a timer reaches 0 after d ticks and stays
    there. *)
Theorem timers_count_down n s :
  0 ≤ delayTimer s → 0 ≤ soundTimer s →
  delayTimer (Nat.iter n updateTimers s)
    = Z.max 0 (delayTimer s - Z.of_nat n) ∧
  soundTimer (Nat.iter n updateTimers s)
    = Z.max 0 (soundTimer s - Z.of_nat n).
Proof.
  intros Hd Hs. induction n as [|n [IHd IHs]]; [simpl; lia|].
  rewrite Nat.iter_succ, updateTimers_delay, updateTimers_sound, IHd, IHs.
  destruct (Z.gtb_spec (Z.max 0 (delayTimer s - Z.of_nat n)) 0),
    (Z.gtb_spec (Z.max 0 (soundTimer s - Z.of_nat n)) 0); lia.
Qed.

Lemma timers_count_down_witness :
  delayTimer (Nat.iter 3 updateTimers
                (with_soundTimer 5 (with_delayTimer 2 (boot []))))
    = Z.max 0 (delayTimer (with_soundTimer 5 (with_delayTimer 2 (boot [])))
               - Z.of_nat 3) ∧
  soundTimer (Nat.iter 3 updateTimers
                (with_soundTimer 5 (with_delayTimer 2 (boot []))))
    = Z.max 0 (soundTimer (with_soundTimer 5 (with_delayTimer 2 (boot [])))
               - Z.of_nat 3).
Proof.
  apply (timers_count_down 3
           (with_soundTimer 5 (with_delayTimer 2 (boot []))));
    vm_compute; discriminate.
Defined.

Lemma executeInstruction_timers X rand s :
  nibble X →
  executeInstruction (instr 0xf X 1 5) rand s =
    Return (with_delayTimer (reg (advance s) X) (advance s)) ∧
  executeInstruction (instr 0xf X 1 8) rand s =
    Return (with_soundTimer (reg (advance s) X) (advance s)) ∧
  executeInstruction (instr 0xf X 0 7) rand s =
    Return (set_reg X (delayTimer (advance s)) (advance s)).
Proof.
  intros HX. unfold executeInstruction. repeat split.
  - decode_instr 0xf X 1 5. reflexivity.
  - decode_instr 0xf X 1 8. reflexivity.
  - decode_instr 0xf X 0 7. reflexivity.
Qed.

(** X16: FX15 copies the byte in Vx to the delay timer and leaves the
    sound timer alone, FX18 does the same for the sound timer, and FY07
    executed while the delay timer still holds that byte reads it back
    into Vy. *)
Theorem delay_timer_round_trip X Y vx rand rand' s :
  nibble X → nibble Y → length (v s) = 16%nat → reg s X = vx → byte vx →
  (∃ s1, executeInstruction (instr 0xf X 1 5) rand s = Return s1 ∧
         delayTimer s1 = vx ∧ soundTimer s1 = soundTimer s ∧
         ∃ s2, executeInstruction (instr 0xf Y 0 7) rand' s1 = Return s2 ∧
               reg s2 Y = vx ∧ delayTimer s2 = vx) ∧
  (∃ s1, executeInstruction (instr 0xf X 1 8) rand s = Return s1 ∧
         soundTimer s1 = vx ∧ delayTimer s1 = delayTimer s).
Proof.
  intros HX HY Hlen Hvx Hb.
  destruct (executeInstruction_timers X rand s HX) as (-> & -> & _).
  split.
  - eexists. split; [reflexivity|]. simpl delayTimer. simpl soundTimer.
    rewrite reg_advance, Hvx. split; [done|]. split; [done|].
    destruct (executeInstruction_timers Y rand'
                (with_delayTimer vx (advance s)) HY) as (_ & _ & ->).
    eexists. split; [reflexivity|]. split; [|reflexivity].
    rewrite reg_set_reg_eq by done. simpl. by apply Z.mod_small.
  - eexists. split; [reflexivity|]. simpl.
    by rewrite reg_advance, Hvx.
Qed.

Lemma delay_timer_round_trip_witness :
  (∃ s1, executeInstruction (instr 0xf 1 1 5) 0
           (set_reg 1 60 (boot [])) = Return s1 ∧
         delayTimer s1 = 60 ∧
         soundTimer s1 = soundTimer (set_reg 1 60 (boot [])) ∧
         ∃ s2, executeInstruction (instr 0xf 2 0 7) 0 s1 = Return s2 ∧
               reg s2 2 = 60 ∧ delayTimer s2 = 60) ∧
  (∃ s1, executeInstruction (instr 0xf 1 1 8) 0
           (set_reg 1 60 (boot [])) = Return s1 ∧
         soundTimer s1 = 60 ∧
         delayTimer s1 = delayTimer (set_reg 1 60 (boot []))).
Proof.
  apply (delay_timer_round_trip 1 2 60 0 0 (set_reg 1 60 (boot [])));
    [unfold nibble; lia | unfold nibble; lia | reflexivity | reflexivity
    | unfold byte; lia].
Defined.

(** ** The cycle as a whole *)

Lemma cycle_returns rand s : ∃ s', cycle rand s = Return s'.
Proof.
  unfold cycle. destruct (instruction_loop_returns rand s) as [s1 ->].
  by eexists.
Qed.

Lemma cycles_returns n rand s : ∃ s', cycles n rand s = Return s'.
Proof.
  revert s. induction n as [|n IH]; intros s; [by eexists|].
  simpl. destruct (cycle_returns rand s) as [s1 ->]. apply IH.
Qed.

(** X17: the [throw] of [executeInstruction] is dead code.  For every
    integer opcode, every random value and every machine state the call
    returns normally, and so does every call of [cycle] and every run of
    calls of [cycle]. *)
Theorem interpreter_never_throws opcode r rand n s :
  (∃ s', executeInstruction opcode r s = Return s') ∧
  (∃ s', cycle rand s = Return s') ∧
  (∃ s', cycles n rand s = Return s').
Proof.
  split; [apply executeInstruction_returns|].
  split; [apply cycle_returns|apply cycles_returns].
Qed.


(** X19: a call of [cycle] on a paused machine executes no instruction and
    leaves memory, registers, address register, program counter, stack,
    timers, display and keyboard as they are; only the speaker is driven,
    from the unchanged sound timer, so a positive sound timer keeps the
    tone on for as long as the machine waits. *)
Theorem paused_cycle_is_frozen rand s :
  paused s = true →
  ∃ s', cycle rand s = Return s' ∧
        memory s' = memory s ∧ v s' = v s ∧ i s' = i s ∧ pc s' = pc s ∧
        stack s' = stack s ∧ delayTimer s' = delayTimer s ∧
        soundTimer s' = soundTimer s ∧ renderer s' = renderer s ∧
        keyboard s' = keyboard s ∧ paused s' = true ∧
        tone (speaker s') = (if soundTimer s >? 0 then Some 440 else None).
Proof.
  intros Hp. unfold cycle. rewrite instruction_loop_paused by done.
  simpl bind. rewrite Hp. eexists. split; [reflexivity|].
  unfold playSound. destruct (soundTimer s >? 0); simpl; by rewrite ?Hp.
Qed.

Lemma paused_cycle_is_frozen_witness :
  ∃ s', cycle (λ _, 0) (with_paused true (boot [])) = Return s' ∧
        memory s' = memory (with_paused true (boot [])) ∧
        v s' = v (with_paused true (boot [])) ∧
        i s' = i (with_paused true (boot [])) ∧
        pc s' = pc (with_paused true (boot [])) ∧
        stack s' = stack (with_paused true (boot [])) ∧
        delayTimer s' = delayTimer (with_paused true (boot [])) ∧
        soundTimer s' = soundTimer (with_paused true (boot [])) ∧
        renderer s' = renderer (with_paused true (boot [])) ∧
        keyboard s' = keyboard (with_paused true (boot [])) ∧
        paused s' = true ∧
        tone (speaker s')
          = (if soundTimer (with_paused true (boot [])) >? 0
             then Some 440 else None).
Proof.
  apply (paused_cycle_is_frozen (λ _, 0) (with_paused true (boot []))).
  reflexivity.
Defined.



(** ** Loading the font and the program *)

Lemma store_from_fields base bytes s :
  let s' := store_from base bytes s in
  v s' = v s ∧ i s' = i s ∧ pc s' = pc s ∧ stack s' = stack s ∧
  paused s' = paused s ∧ speed s' = speed s ∧
  delayTimer s' = delayTimer s ∧ soundTimer s' = soundTimer s ∧
  renderer s' = renderer s ∧ keyboard s' = keyboard s ∧
  speaker s' = speaker s ∧ length (memory s') = length (memory s).
Proof.
  revert base s. induction bytes as [|b rest IH]; intros base s; [done|].
  cbv zeta. simpl store_from.
  destruct (IH (base + 1) (set_mem base b s))
    as (-> & -> & -> & -> & -> & -> & -> & -> & -> & -> & -> & ->).
  by rewrite length_memory_set_mem.
Qed.

Lemma store_from_frame base bytes s a :
  a < base ∨ base + Z.of_nat (length bytes) ≤ a →
  typed_get (memory (store_from base bytes s)) a = typed_get (memory s) a.
Proof.
  revert base s. induction bytes as [|b rest IH]; intros base s Ha; [done|].
  simpl store_from. rewrite IH by (simpl length in Ha; lia).
  simpl. apply typed_get_set_ne. simpl length in Ha. lia.
Qed.

Lemma store_from_content base bytes s (k : nat) b :
  0 ≤ base → length (memory s) = 4096%nat →
  bytes !! k = Some b → base + Z.of_nat k < 4096 →
  mem (store_from base bytes s) (base + Z.of_nat k) = b mod 256.
Proof.
  revert base s k. induction bytes as [|b0 rest IH];
    intros base s k Hbase Hlen Hk Hin; [done|].
  simpl store_from. destruct k as [|k].
  - injection Hk as ->. unfold mem.
    rewrite store_from_frame by lia.
    replace (base + Z.of_nat 0) with base by lia.
    apply mem_set_mem_eq; [lia|done].
  - replace (base + Z.of_nat (S k)) with (base + 1 + Z.of_nat k) by lia.
    apply IH; [lia| |done|lia].
    by rewrite length_memory_set_mem.
Qed.

Lemma sprites_bytes : Forall byte sprites.
Proof. repeat constructor; unfold byte; lia. Qed.

Lemma mem_new_CPU r k sp a : mem (new_CPU r k sp) a = 0.
Proof.
  unfold mem, typed_get, new_CPU. cbn [memory].
  destruct (0 <=? a); [|done].
  destruct (replicate 4096 0 !! Z.to_nat a) as [z|] eqn:Hl; [|done].
  by apply lookup_replicate in Hl as [-> _].
Qed.

(** X21: the booted machine has 4096 memory cells and the program counter
    at 0x200.  The eighty font bytes lie at addresses 0..79 whatever the
    program is, the cells 80..0x1FF are 0, byte k of the program lies at
    0x200 + k as long as that address is below 4096 (the rest of a longer
    program is dropped without growing the memory), and the cells after
    the program are 0. *)
Theorem boot_memory_layout program :
  length (memory (boot program)) = 4096%nat ∧
  pc (boot program) = Num 0x200 ∧
  (∀ (k : nat) b, sprites !! k = Some b →
                  mem (boot program) (Z.of_nat k) = b) ∧
  (∀ a, 80 ≤ a < 0x200 → mem (boot program) a = 0) ∧
  (∀ (k : nat) b, program !! k = Some b → 0x200 + Z.of_nat k < 4096 →
                  mem (boot program) (0x200 + Z.of_nat k) = b mod 256) ∧
  (∀ a, 0x200 + Z.of_nat (length program) ≤ a → mem (boot program) a = 0).
Proof.
  unfold boot, loadProgramIntoMemory, loadSpritesIntoMemory.
  set (s0 := new_CPU new_Renderer new_Keyboard (mkSpeaker None)).
  assert (Hlen0 : length (memory s0) = 4096%nat) by apply length_replicate.
  destruct (store_from_fields 0 sprites s0)
    as (_ & _ & Hpc1 & _ & _ & _ & _ & _ & _ & _ & _ & Hlen1).
  destruct (store_from_fields 0x200 program (store_from 0 sprites s0))
    as (_ & _ & Hpc2 & _ & _ & _ & _ & _ & _ & _ & _ & Hlen2).
  split; [by rewrite Hlen2, Hlen1|].
  split; [by rewrite Hpc2, Hpc1|].
  split; [|split; [|split]].
  - intros k b Hk. unfold mem.
    assert (Hk80 : (k < 80)%nat) by (by apply lookup_lt_Some in Hk).
    rewrite store_from_frame by lia.
    change (Z.of_nat k) with (0 + Z.of_nat k).
    fold (mem (store_from 0 sprites s0) (0 + Z.of_nat k)).
    rewrite (store_from_content 0 sprites s0 k b);
      [|lia|exact Hlen0|exact Hk|lia].
    apply Z.mod_small.
    exact (Forall_lookup_1 _ _ _ _ sprites_bytes Hk).
  - intros a Ha. unfold mem.
    rewrite !store_from_frame by (simpl length; lia).
    exact (mem_new_CPU new_Renderer new_Keyboard (mkSpeaker None) a).
  - intros k b Hk Hin.
    apply store_from_content; [lia|by rewrite Hlen1|done|done].
  - intros a Ha. unfold mem.
    rewrite !store_from_frame by (simpl length; lia).
    exact (mem_new_CPU new_Renderer new_Keyboard (mkSpeaker None) a).
Qed.

(** ** Fetching *)

(** X22: with registers and memory holding bytes and the program counter
    at a non-negative address P, [fetch] combines the cell at P (high
    byte) and the cell at P + 1 (low byte): the result is
    256 * memory[P] + memory[P+1], a 16-bit word, and it is the word
    [gxyn] when the two cells hold the bytes [gx] and [yn].  At P = 4095
    the low byte is missing and counts as 0; at 4096 and beyond the word
    fetched is 0. *)
Theorem fetch_is_big_endian P s :
  arrays_ok s → pc s = Num P → 0 ≤ P →
  fetch s = 256 * mem s P + mem s (P + 1) ∧
  0 ≤ fetch s < 65536 ∧
  (∀ g x y n, nibble g → nibble x → nibble y → nibble n →
     mem s P = g * 16 + x → mem s (P + 1) = y * 16 + n →
     fetch s = instr g x y n) ∧
  (P = 4095 → fetch s = 256 * mem s 4095) ∧
  (4096 ≤ P → fetch s = 0).
Proof.
  intros (Hlv & Hlm & Hbv & Hbm) Hpc HP.
  assert (Hf : fetch s = 256 * mem s P + mem s (P + 1)).
  { unfold fetch. rewrite Hpc. simpl.
    fold (mem s P). fold (mem s (P + 1)).
    destruct (bitwise_bytes (mem s P) (mem s (P + 1))) as (_ & _ & _ & ->);
      [apply mem_byte; exact Hbm | apply mem_byte; exact Hbm |]. lia. }
  pose proof (mem_byte s P Hbm) as [? ?].
  pose proof (mem_byte s (P + 1) Hbm) as [? ?].
  assert (Hout : ∀ a, 4096 ≤ a → mem s a = 0).
  { intros a Ha. unfold mem, typed_get.
    destruct (0 <=? a); [|done]. by rewrite lookup_ge_None_2 by lia. }
  split; [exact Hf|]. split; [lia|]. split; [|split].
  - intros g x y n Hg Hx Hy Hn Hhi Hlo.
    rewrite Hf, Hhi, Hlo. unfold instr. lia.
  - intros ->. rewrite Hf, (Hout (4095 + 1)) by lia. lia.
  - intros HP'. rewrite Hf, !Hout by lia. lia.
Qed.

Lemma fetch_is_big_endian_witness :
  fetch (boot [0xA1; 0x23])
    = 256 * mem (boot [0xA1; 0x23]) 0x200
      + mem (boot [0xA1; 0x23]) (0x200 + 1) ∧
  0 ≤ fetch (boot [0xA1; 0x23]) < 65536 ∧
  (∀ g x y n, nibble g → nibble x → nibble y → nibble n →
     mem (boot [0xA1; 0x23]) 0x200 = g * 16 + x →
     mem (boot [0xA1; 0x23]) (0x200 + 1) = y * 16 + n →
     fetch (boot [0xA1; 0x23]) = instr g x y n) ∧
  (0x200 = 4095 →
     fetch (boot [0xA1; 0x23]) = 256 * mem (boot [0xA1; 0x23]) 4095) ∧
  (4096 ≤ 0x200 → fetch (boot [0xA1; 0x23]) = 0).
Proof.
  apply (fetch_is_big_endian 0x200 (boot [0xA1; 0x23]));
    [apply arrays_ok_boot | reflexivity | lia].
Defined.


(** ** Cycles before the program has arrived *)






(** ** Key events *)

(** X24: a key-down event for a mapped key code marks its CHIP-8 key as
    pressed, a following key-up event marks it as released, and neither
    changes the state of any other key.  An event for an unmapped key code
    changes the state of no CHIP-8 key, and touches neither the registers
    nor the pause flag even while the machine waits for a key. *)
Theorem key_events_track_state which k s :
  keymap which = Some k →
  isKeyPressed k (keyboard (onKeyDown which s)) = Some true ∧
  isKeyPressed k (keyboard (keyUp which (onKeyDown which s))) = Some false ∧
  (∀ k', k' ≠ k →
     isKeyPressed k' (keyboard (onKeyDown which s))
       = isKeyPressed k' (keyboard s) ∧
     isKeyPressed k' (keyboard (keyUp which s))
       = isKeyPressed k' (keyboard s)) ∧
  ∀ other, keymap other = None →
    (∀ k', isKeyPressed k' (keyboard (onKeyDown other s))
           = isKeyPressed k' (keyboard s)) ∧
    v (onKeyDown other s) = v s ∧
    paused (onKeyDown other s) = paused s ∧
    onNextKeyPress (keyboard (onKeyDown other s))
      = onNextKeyPress (keyboard s).
Proof.
  intros Hk.
  assert (Hdown : ∀ w, keysPressed (keyboard (onKeyDown w s))
                       = <[keymap w := true]> (keysPressed (keyboard s))).
  { intros w. unfold onKeyDown. simpl.
    destruct (onNextKeyPress (keyboard s)); [|done].
    by destruct (truthy_key (keymap w)). }
  unfold isKeyPressed.
  split; [by rewrite Hdown, Hk, lookup_insert_eq|].
  split.
  { unfold keyUp, onKeyUp. simpl. by rewrite Hk, lookup_insert_eq. }
  split.
  { intros k' Hk'. rewrite Hdown, Hk. unfold keyUp, onKeyUp. simpl.
    rewrite Hk, !lookup_insert_ne by congruence. done. }
  intros other Hother. split.
  { intros k'. rewrite Hdown, Hother. by rewrite lookup_insert_ne. }
  unfold onKeyDown. rewrite Hother. simpl.
  by destruct (onNextKeyPress (keyboard s)).
Qed.

Lemma key_events_track_state_witness :
  isKeyPressed 4 (keyboard (onKeyDown 81 (boot []))) = Some true ∧
  isKeyPressed 4 (keyboard (keyUp 81 (onKeyDown 81 (boot [])))) = Some false ∧
  (∀ k', k' ≠ 4 →
     isKeyPressed k' (keyboard (onKeyDown 81 (boot [])))
       = isKeyPressed k' (keyboard (boot [])) ∧
     isKeyPressed k' (keyboard (keyUp 81 (boot [])))
       = isKeyPressed k' (keyboard (boot []))) ∧
  ∀ other, keymap other = None →
    (∀ k', isKeyPressed k' (keyboard (onKeyDown other (boot [])))
           = isKeyPressed k' (keyboard (boot []))) ∧
    v (onKeyDown other (boot [])) = v (boot []) ∧
    paused (onKeyDown other (boot [])) = paused (boot []) ∧
    onNextKeyPress (keyboard (onKeyDown other (boot [])))
      = onNextKeyPress (keyboard (boot [])).
Proof. apply (key_events_track_state 81 4 (boot [])). reflexivity. Defined.


Lemma executeInstruction_key_skip X rand s :
  nibble X →
  executeInstruction (instr 0xe X 9 0xe) rand s =
    Return (skip_if (truthy_flag (isKeyPressed (reg (advance s) X)
                                    (keyboard (advance s))))
              (advance s)) ∧
  executeInstruction (instr 0xe X 0xa 1) rand s =
    Return (skip_if (negb (truthy_flag (isKeyPressed (reg (advance s) X)
                                          (keyboard (advance s)))))
              (advance s)).
Proof.
  intros HX. unfold executeInstruction. split.
  - decode_instr 0xe X 9 0xe. reflexivity.
  - decode_instr 0xe X 0xa 1. reflexivity.
Qed.

Lemma pc_skip_if b P s :
  pc s = Num P →
  pc (skip_if b (advance s)) = Num (if b then P + 4 else P + 2).
Proof.
  intros HP. unfold skip_if, advance. destruct b; simpl; rewrite HP; simpl;
    f_equal; lia.
Qed.

Lemma key_down_then_up which k s :
  keymap which = Some k →
  isKeyPressed k (keyboard (onKeyDown which s)) = Some true ∧
  isKeyPressed k (keyboard (keyUp which (onKeyDown which s))) = Some false.
Proof.
  intros Hk. unfold isKeyPressed. split.
  - assert (Hdown : keysPressed (keyboard (onKeyDown which s))
                    = <[keymap which := true]> (keysPressed (keyboard s))).
    { unfold onKeyDown. simpl.
      destruct (onNextKeyPress (keyboard s)); [|done].
      by destruct (truthy_key (keymap which)). }
    by rewrite Hdown, Hk, lookup_insert_eq.
  - unfold keyUp, onKeyUp. simpl. by rewrite Hk, lookup_insert_eq.
Qed.

(** X25: with Vx holding the CHIP-8 key k and no key wait pending, EX9E
    executed after a key-down event for k skips (continues at P + 4) and
    EXA1 does not (continues at P + 2); after the matching key-up event it
    is the other way round.  A key that has never been pressed counts as
    not pressed. *)
Theorem key_skips_follow_events X which k P rand s :
  nibble X → keymap which = Some k →
  onNextKeyPress (keyboard s) = None → reg s X = k → pc s = Num P →
  (∃ s', executeInstruction (instr 0xe X 9 0xe) rand (onKeyDown which s)
           = Return s' ∧ pc s' = Num (P + 4)) ∧
  (∃ s', executeInstruction (instr 0xe X 0xa 1) rand (onKeyDown which s)
           = Return s' ∧ pc s' = Num (P + 2)) ∧
  (∃ s', executeInstruction (instr 0xe X 9 0xe) rand
           (keyUp which (onKeyDown which s))
           = Return s' ∧ pc s' = Num (P + 2)) ∧
  (∃ s', executeInstruction (instr 0xe X 0xa 1) rand
           (keyUp which (onKeyDown which s))
           = Return s' ∧ pc s' = Num (P + 4)) ∧
  (keysPressed (keyboard s) !! Some k = None →
   (∃ s', executeInstruction (instr 0xe X 9 0xe) rand s = Return s' ∧
          pc s' = Num (P + 2)) ∧
   (∃ s', executeInstruction (instr 0xe X 0xa 1) rand s = Return s' ∧
          pc s' = Num (P + 4))).
Proof.
  intros HX Hk Hhook Hreg HP.
  destruct (key_down_then_up which k s Hk) as (Hdown & Hup).
  assert (Hd : onKeyDown which s
               = with_keyboard
                   (mkKeyboard (<[Some k := true]> (keysPressed (keyboard s)))
                      None) s).
  { unfold onKeyDown. simpl. by rewrite Hhook, Hk. }
  assert (Hregd : reg (onKeyDown which s) X = k) by (by rewrite Hd).
  assert (Hpcd : pc (onKeyDown which s) = Num P) by (by rewrite Hd).
  assert (Hregu : reg (keyUp which (onKeyDown which s)) X = k)
    by (by rewrite Hd).
  assert (Hpcu : pc (keyUp which (onKeyDown which s)) = Num P)
    by (by rewrite Hd).
  split; [|split; [|split; [|split]]].
  - destruct (executeInstruction_key_skip X rand (onKeyDown which s) HX)
      as [-> _].
    eexists. split; [reflexivity|].
    rewrite (pc_skip_if _ P) by done.
    rewrite reg_advance, Hregd.
    change (keyboard (advance (onKeyDown which s)))
      with (keyboard (onKeyDown which s)).
    by rewrite Hdown.
  - destruct (executeInstruction_key_skip X rand (onKeyDown which s) HX)
      as [_ ->].
    eexists. split; [reflexivity|].
    rewrite (pc_skip_if _ P) by done.
    rewrite reg_advance, Hregd.
    change (keyboard (advance (onKeyDown which s)))
      with (keyboard (onKeyDown which s)).
    by rewrite Hdown.
  - destruct (executeInstruction_key_skip X rand
                (keyUp which (onKeyDown which s)) HX) as [-> _].
    eexists. split; [reflexivity|].
    rewrite (pc_skip_if _ P) by done.
    rewrite reg_advance, Hregu.
    change (keyboard (advance (keyUp which (onKeyDown which s))))
      with (keyboard (keyUp which (onKeyDown which s))).
    by rewrite Hup.
  - destruct (executeInstruction_key_skip X rand
                (keyUp which (onKeyDown which s)) HX) as [_ ->].
    eexists. split; [reflexivity|].
    rewrite (pc_skip_if _ P) by done.
    rewrite reg_advance, Hregu.
    change (keyboard (advance (keyUp which (onKeyDown which s))))
      with (keyboard (keyUp which (onKeyDown which s))).
    by rewrite Hup.
  - intros Hnone.
    destruct (executeInstruction_key_skip X rand s HX) as [-> ->].
    split; (eexists; split; [reflexivity|]);
      rewrite (pc_skip_if _ P) by done;
      rewrite reg_advance, Hreg; unfold isKeyPressed;
      change (keyboard (advance s)) with (keyboard s);
      by rewrite Hnone.
Qed.

Lemma key_skips_follow_events_witness :
  (∃ s', executeInstruction (instr 0xe 1 9 0xe) 0
           (onKeyDown 81 (set_reg 1 4 (boot [])))
           = Return s' ∧ pc s' = Num (0x200 + 4)) ∧
  (∃ s', executeInstruction (instr 0xe 1 0xa 1) 0
           (onKeyDown 81 (set_reg 1 4 (boot [])))
           = Return s' ∧ pc s' = Num (0x200 + 2)) ∧
  (∃ s', executeInstruction (instr 0xe 1 9 0xe) 0
           (keyUp 81 (onKeyDown 81 (set_reg 1 4 (boot []))))
           = Return s' ∧ pc s' = Num (0x200 + 2)) ∧
  (∃ s', executeInstruction (instr 0xe 1 0xa 1) 0
           (keyUp 81 (onKeyDown 81 (set_reg 1 4 (boot []))))
           = Return s' ∧ pc s' = Num (0x200 + 4)) ∧
  (keysPressed (keyboard (set_reg 1 4 (boot []))) !! Some 4 = None →
   (∃ s', executeInstruction (instr 0xe 1 9 0xe) 0 (set_reg 1 4 (boot []))
          = Return s' ∧ pc s' = Num (0x200 + 2)) ∧
   (∃ s', executeInstruction (instr 0xe 1 0xa 1) 0 (set_reg 1 4 (boot []))
          = Return s' ∧ pc s' = Num (0x200 + 4))).
Proof.
  apply (key_skips_follow_events 1 81 4 0x200 0 (set_reg 1 4 (boot [])));
    [unfold nibble; lia | reflexivity | vm_compute; reflexivity
    | vm_compute; reflexivity | vm_compute; reflexivity].
Defined.

(** X26: FX0A pauses the machine, and the next key-down event for a key
    whose CHIP-8 value k is 1..15 stores k in Vx, clears the pause and
    removes the hook, with the program counter at the instruction after
    the wait; events that follow leave the registers alone, and the next
    turn of the instruction loop executes the word at the program
    counter. *)
Theorem wait_then_key_press X which k P rand s :
  nibble X → length (v s) = 16%nat →
  keymap which = Some k → k ≠ 0 → pc s = Num P →
  ∃ s1, executeInstruction (instr 0xf X 0 0xa) rand s = Return s1 ∧
        paused s1 = true ∧
        (∀ rand', instruction_loop rand' s1 = Return s1) ∧
        reg (onKeyDown which s1) X = k ∧
        (∀ r, r ≠ X → reg (onKeyDown which s1) r = reg s r) ∧
        paused (onKeyDown which s1) = false ∧
        pc (onKeyDown which s1) = Num (P + 2) ∧
        onNextKeyPress (keyboard (onKeyDown which s1)) = None ∧
        (∀ which', v (onKeyDown which' (onKeyDown which s1))
                   = v (onKeyDown which s1)) ∧
        ∀ r, cycle_step r (onKeyDown which s1)
             = executeInstruction (fetch (onKeyDown which s1)) r
                 (onKeyDown which s1).
Proof.
  intros HX Hlen Hk Hk0 HP.
  destruct (wait_pauses X rand s HX) as (s1 & Hexec & Hp1 & Hhook & Hv & Hloop).
  exists s1. split; [exact Hexec|]. split; [exact Hp1|].
  split; [exact Hloop|].
  assert (Hlen1 : length (v s1) = 16%nat) by (by rewrite Hv).
  destruct (key_press_resumes which k X s1 Hk Hk0 HX Hlen1 Hhook)
    as (Hreg & Hpa & Hh & Hlater & Hstep).
  split; [exact Hreg|].
  rewrite executeInstruction_wait in Hexec by done.
  injection Hexec as <-.
  assert (Hd : onKeyDown which
                 (with_keyboard
                    (mkKeyboard (keysPressed (keyboard s)) (Some X))
                    (with_paused true (advance s)))
               = with_keyboard
                   (mkKeyboard (<[Some k := true]> (keysPressed (keyboard s)))
                      None)
                   (nextKeyPress X k
                      (with_keyboard
                         (mkKeyboard
                            (<[Some k := true]> (keysPressed (keyboard s)))
                            (Some X))
                         (with_paused true (advance s))))).
  { unfold onKeyDown. simpl. rewrite Hk. simpl.
    destruct (Z.eqb_spec k 0); [done|]. reflexivity. }
  split.
  { intros r Hr. rewrite Hd. unfold nextKeyPress.
    change (reg (with_keyboard ?kb (with_paused ?b ?t)) r) with (reg t r).
    by rewrite reg_set_reg_ne. }
  split; [exact Hpa|]. split.
  { rewrite Hd. simpl. by rewrite HP. }
  split; [exact Hh|]. split; [|exact Hstep].
  intros which'. apply Hlater.
Qed.

Lemma wait_then_key_press_witness :
  ∃ s1, executeInstruction (instr 0xf 3 0 0xa) 0 (boot []) = Return s1 ∧
        paused s1 = true ∧
        (∀ rand', instruction_loop rand' s1 = Return s1) ∧
        reg (onKeyDown 81 s1) 3 = 4 ∧
        (∀ r, r ≠ 3 → reg (onKeyDown 81 s1) r = reg (boot []) r) ∧
        paused (onKeyDown 81 s1) = false ∧
        pc (onKeyDown 81 s1) = Num (0x200 + 2) ∧
        onNextKeyPress (keyboard (onKeyDown 81 s1)) = None ∧
        (∀ which', v (onKeyDown which' (onKeyDown 81 s1))
                   = v (onKeyDown 81 s1)) ∧
        ∀ r, cycle_step r (onKeyDown 81 s1)
             = executeInstruction (fetch (onKeyDown 81 s1)) r
                 (onKeyDown 81 s1).
Proof.
  apply (wait_then_key_press 3 81 4 0x200 0 (boot []));
    [unfold nibble; lia | vm_compute; reflexivity | reflexivity | lia
    | vm_compute; reflexivity].
Defined.


(** ** Painting the display *)

Lemma omap_agree {A B} (f g : A → option B) (l : list A) :
  (∀ x, x ∈ l → f x = g x) → omap f l = omap g l.
Proof.
  intros H. apply list_omap_ext. induction l as [|x l IH]; constructor.
  - apply H. left.
  - apply IH. intros y Hy. apply H. by right.
Qed.

(** X27: with a positive scale, [render] paints the square with origin
    (x * scale, y * scale) exactly for the cells (x, y) of the 64 x 32
    grid whose display entry x + 64 y is non-zero, and paints nothing
    else.  An entry at an index outside 0..2047, such as the one
    [setPixel] toggles for y = 32, is never painted: such a toggle does
    not change what [render] paints. *)
Theorem render_paints_lit_cells scale r :
  0 < scale →
  (∀ x y, 0 ≤ x < 64 → 0 ≤ y < 32 →
     ((x * scale, y * scale) ∈ fillRects scale r
      ↔ pixel (display r) (x + 64 * y) ≠ 0)) ∧
  (∀ q, q ∈ fillRects scale r →
        ∃ x y, 0 ≤ x < 64 ∧ 0 ≤ y < 32 ∧ q = (x * scale, y * scale) ∧
               pixel (display r) (x + 64 * y) ≠ 0) ∧
  (∀ x y, pixel_index x y < 0 ∨ 2048 ≤ pixel_index x y →
          fillRects scale (setPixel x y r).1 = fillRects scale r).
Proof.
  intros Hscale.
  assert (Hmem : ∀ q, q ∈ fillRects scale r ↔
            ∃ k, 0 ≤ k < 2048 ∧ pixel (display r) k ≠ 0 ∧
                 q = (k mod 64 * scale, k / 64 * scale)).
  { intros q. unfold fillRects. rewrite list_elem_of_omap. split.
    - intros (k & Hk%elem_of_seqZ & Hf). exists k.
      unfold cols, rows in *.
      destruct (Z.eqb_spec (pixel (display r) k) 0); simpl in Hf; [done|].
      injection Hf as <-. split; [lia|done].
    - intros (k & Hk & Hlit & ->). exists k. split.
      + apply elem_of_seqZ. unfold cols, rows. lia.
      + destruct (Z.eqb_spec (pixel (display r) k) 0); [done|]. done. }
  split; [|split].
  - intros x y Hx Hy. rewrite Hmem. split.
    + intros (k & Hk & Hlit & Heq). injection Heq as Hxe Hye.
      apply Z.mul_reg_r in Hxe; [|lia]. apply Z.mul_reg_r in Hye; [|lia].
      pose proof (Z.div_mod k 64 ltac:(lia)).
      by replace (x + 64 * y) with k by lia.
    + intros Hlit. exists (x + 64 * y). split; [lia|]. split; [done|].
      f_equal; f_equal.
      * apply Z.mod_unique with y; lia.
      * apply Z.div_unique with x; lia.
  - intros q (k & Hk & Hlit & ->)%Hmem.
    pose proof (Z.mod_pos_bound k 64 ltac:(lia)).
    pose proof (Z.div_mod k 64 ltac:(lia)).
    exists (k mod 64), (k / 64).
    split; [lia|]. split; [|split; [done|]].
    + split; [apply Z.div_pos; lia|apply Z.div_lt_upper_bound; lia].
    + by replace (k mod 64 + 64 * (k / 64)) with k by lia.
  - intros x y Hout. rewrite setPixel_flip. unfold fillRects.
    cbn [fst display]. apply omap_agree. intros k Hk%elem_of_seqZ.
    unfold cols, rows in Hk. rewrite pixel_flip_ne by lia. done.
Qed.

Lemma render_paints_lit_cells_witness :
  (∀ x y, 0 ≤ x < 64 → 0 ≤ y < 32 →
     ((x * 10, y * 10) ∈ fillRects 10 new_Renderer
      ↔ pixel (display new_Renderer) (x + 64 * y) ≠ 0)) ∧
  (∀ q, q ∈ fillRects 10 new_Renderer →
        ∃ x y, 0 ≤ x < 64 ∧ 0 ≤ y < 32 ∧ q = (x * 10, y * 10) ∧
               pixel (display new_Renderer) (x + 64 * y) ≠ 0) ∧
  (∀ x y, pixel_index x y < 0 ∨ 2048 ≤ pixel_index x y →
          fillRects 10 (setPixel x y new_Renderer).1
          = fillRects 10 new_Renderer).
Proof. apply (render_paints_lit_cells 10 new_Renderer). lia. Defined.

(** ** The display holds only 0 and 1 *)
















(** ** What a draw can change *)

Lemma draw_col_shape x y row col s df sprite :
  ∃ df', draw_col x y row (with_blit s df, sprite) col
         = (with_blit s df', sprite ≪ 1).
Proof.
  unfold draw_col. destruct (Z.land sprite 128 >? 0); [|by exists df].
  rewrite setPixel_flip. destruct df as [d f].
  destruct (Z.lxor _ 1 =? 0).
  - eexists (_, true). f_equal. unfold with_blit, set_reg. simpl.
    by rewrite typed_set_twice.
  - by eexists (_, f).
Qed.

Lemma draw_cols_shape x y row cl s df sprite :
  ∃ df', (foldl (draw_col x y row) (with_blit s df, sprite) cl).1
         = with_blit s df'.
Proof.
  revert df sprite. induction cl as [|col cl IH]; intros df sprite;
    [by exists df|].
  cbn [foldl].
  destruct (draw_col_shape x y row col s df sprite) as [df1 ->]. apply IH.
Qed.

Lemma draw_rows_shape x y rl s df :
  ∃ df', foldl (draw_row x y) (with_blit s df) rl = with_blit s df'.
Proof.
  revert df. induction rl as [|row rl IH]; intros df; [by exists df|].
  cbn [foldl]. unfold draw_row at 2. cbv zeta.
  destruct (draw_cols_shape x y row (seqZ 0 8) s df
              (mem (with_blit s df) (i (with_blit s df) + row)))
    as [df1 ->].
  apply IH.
Qed.

(** X29: for all register indices X and Y, VF included, and every height,
    Dxyn changes nothing but the display and VF: memory, address register,
    stack, timers, pause flag, keyboard and the registers V0..VE keep
    their values, the program counter advances by 2, and VF ends as 0
    or 1. *)
Theorem draw_changes_display_and_flag_only X Y N rand s :
  nibble X → nibble Y → nibble N → length (v s) = 16%nat →
  ∃ s', executeInstruction (instr 0xd X Y N) rand s = Return s' ∧
        memory s' = memory s ∧ i s' = i s ∧ stack s' = stack s ∧
        pc s' = js_add (pc s) 2 ∧
        delayTimer s' = delayTimer s ∧ soundTimer s' = soundTimer s ∧
        paused s' = paused s ∧ keyboard s' = keyboard s ∧
        (∀ r, r ≠ 0xf → reg s' r = reg s r) ∧
        (reg s' 0xf = 0 ∨ reg s' 0xf = 1).
Proof.
  intros HX HY HN Hlen. rewrite executeInstruction_draw by done.
  eexists. split; [reflexivity|]. unfold draw. cbv zeta.
  rewrite with_blit_start.
  destruct (draw_rows_shape X Y (seqZ 0 (Z.land (instr 13 X Y N) 15))
              (advance s) (display (renderer (advance s)), false))
    as [df ->].
  do 8 (split; [reflexivity|]). split.
  - intros r Hr. by rewrite reg_with_blit, reg_advance.
  - rewrite flag_with_blit by done. destruct df.2; [by right|by left].
Qed.

Lemma draw_changes_display_and_flag_only_witness :
  ∃ s', executeInstruction (instr 0xd 0xf 0xf 5) 0 (boot []) = Return s' ∧
        memory s' = memory (boot []) ∧ i s' = i (boot []) ∧
        stack s' = stack (boot []) ∧
        pc s' = js_add (pc (boot [])) 2 ∧
        delayTimer s' = delayTimer (boot []) ∧
        soundTimer s' = soundTimer (boot []) ∧
        paused s' = paused (boot []) ∧ keyboard s' = keyboard (boot []) ∧
        (∀ r, r ≠ 0xf → reg s' r = reg (boot []) r) ∧
        (reg s' 0xf = 0 ∨ reg s' 0xf = 1).
Proof.
  apply (draw_changes_display_and_flag_only 0xf 0xf 5 0 (boot []));
    [unfold nibble; lia | unfold nibble; lia | unfold nibble; lia
    | vm_compute; reflexivity].
Defined.


(** ** A sprite drawn inside the display *)

Lemma pixel_index_inside x y :
  0 ≤ x ≤ 64 → 0 ≤ y ≤ 32 → pixel_index x y = x + 64 * y.
Proof.
  intros Hx Hy. unfold pixel_index, cols, rows.
  destruct (Z.gtb_spec x 64), (Z.ltb_spec x 0),
    (Z.gtb_spec y 32), (Z.ltb_spec y 0); lia.
Qed.

Lemma row_points_origin vx vy row cl sprite p :
  p ∈ row_points vx vy row sprite cl →
  ∃ (k : nat) col,
    cl !! k = Some col ∧
    (Z.land (sprite ≪ Z.of_nat k) 0x80 >? 0) = true ∧
    p = pixel_index (vx + col) (vy + row).
Proof.
  revert sprite. induction cl as [|c cl IH]; intros sprite Hp.
  - by apply elem_of_nil in Hp.
  - simpl in Hp. apply elem_of_app in Hp as [Hp|Hp].
    + destruct (Z.land sprite 128 >? 0) eqn:Hbit;
        [|by apply elem_of_nil in Hp].
      apply list_elem_of_singleton in Hp as ->.
      exists 0%nat, c. by rewrite Z.shiftl_0_r.
    + destruct (IH _ Hp) as (k & col & Hk & Hbit & ->).
      exists (S k), col. split; [done|]. split; [|done].
      rewrite Z.shiftl_shiftl in Hbit by lia.
      by replace (Z.of_nat (S k)) with (1 + Z.of_nat k) by lia.
Qed.

Lemma sprite_points_origin s x y rl p :
  p ∈ sprite_points s x y rl →
  ∃ row col, row ∈ rl ∧ 0 ≤ col < 8 ∧
             sprite_bit (mem s (i s + row)) col = true ∧
             p = pixel_index (reg s x + col) (reg s y + row).
Proof.
  unfold sprite_points. intros (l & Hp & Hl)%list_elem_of_join.
  apply list_elem_of_fmap in Hl as (row & -> & Hrow).
  apply row_points_origin in Hp as (k & col & Hk & Hbit & ->).
  apply lookup_seqZ in Hk as [-> Hk].
  exists row, (0 + Z.of_nat k). split; [done|]. split; [lia|].
  split; [|done]. unfold sprite_bit. by rewrite Z.add_0_l.
Qed.

Lemma NoDup_row_points vx vy row cl sprite :
  NoDup cl → (∀ c, c ∈ cl → 0 ≤ vx + c < 64) → 0 ≤ vy + row ≤ 32 →
  NoDup (row_points vx vy row sprite cl).
Proof.
  revert sprite. induction cl as [|c cl IH]; intros sprite Hnd Hin Hrow;
    [constructor|].
  apply NoDup_cons in Hnd as [Hc Hnd]. simpl. apply NoDup_app.
  split; [|split].
  - destruct (Z.land sprite 128 >? 0); [apply NoDup_singleton|constructor].
  - intros p Hp Hp'.
    destruct (Z.land sprite 128 >? 0); [|by apply elem_of_nil in Hp].
    apply list_elem_of_singleton in Hp as ->.
    apply row_points_origin in Hp' as (k & col & Hk & _ & Heq).
    assert (Hcol : col ∈ cl) by (by eapply list_elem_of_lookup_2).
    pose proof (Hin c ltac:(left)). pose proof (Hin col ltac:(by right)).
    rewrite !pixel_index_inside in Heq by lia.
    assert (c = col) by lia. by subst.
  - apply IH; [done| |done]. intros c' Hc'. apply Hin. by right.
Qed.

Lemma NoDup_sprite_points s x y rl :
  NoDup rl → 0 ≤ reg s x → reg s x + 8 ≤ 64 →
  (∀ row, row ∈ rl → 0 ≤ reg s y + row ≤ 32) →
  NoDup (sprite_points s x y rl).
Proof.
  intros Hnd Hx0 Hx8. induction Hnd as [|r rl Hr Hnd IH]; intros Hin;
    [constructor|].
  change (sprite_points s x y (r :: rl))
    with (row_points (reg s x) (reg s y) r (mem s (i s + r)) (seqZ 0 8)
          ++ sprite_points s x y rl).
  apply NoDup_app. split; [|split].
  - apply NoDup_row_points; [apply NoDup_seqZ| |apply Hin; left].
    intros c Hc%elem_of_seqZ. lia.
  - intros p Hp Hp'.
    apply row_points_origin in Hp as (k & col & Hk & _ & ->).
    apply lookup_seqZ in Hk as [-> Hk].
    apply sprite_points_origin in Hp' as (row' & col' & Hrow' & Hcol' & _ & Heq).
    pose proof (Hin r ltac:(left)). pose proof (Hin row' ltac:(by right)).
    rewrite !pixel_index_inside in Heq by lia.
    assert (r = row') by lia. by subst.
  - apply IH. intros row Hrow. apply Hin. by right.
Qed.

Lemma odd_hits_NoDup p ps : NoDup ps → (odd_hits p ps = true ↔ p ∈ ps).
Proof.
  induction 1 as [|q ps Hq Hnd IH]; simpl.
  - split; [done|]. by intros ?%elem_of_nil.
  - destruct (Z.eqb_spec q p) as [->|Hne].
    + split; [left|]. intros _.
      destruct (odd_hits p ps) eqn:Hodd; [|done].
      by apply odd_hits_elem in Hodd.
    + simpl. rewrite IH. split; [by right|].
      by intros [->|?]%elem_of_cons.
Qed.

Lemma blit_flag_NoDup ps d f :
  NoDup ps →
  ((blit ps (d, f)).2 = true ↔ f = true ∨ ∃ p, p ∈ ps ∧ pixel d p = 1).
Proof.
  intros Hnd. revert d f. induction Hnd as [|q ps Hq Hnd IH]; intros d f.
  - simpl. split; [by left|]. intros [?|(p & Hp%elem_of_nil & _)]; done.
  - rewrite blit_cons, IH. simpl. rewrite orb_true_iff, erase_iff. split.
    + intros [[Hf|He]|(p & Hp & Hlit)].
      * by left.
      * right. exists q. split; [left|done].
      * right. exists p. split; [by right|].
        rewrite pixel_flip_ne in Hlit; [done|]. by intros ->.
    + intros [Hf|(p & Hp & Hlit)]; [by left; left|].
      apply elem_of_cons in Hp as [->|Hp]; [by left; right|].
      right. exists p. split; [done|].
      rewrite pixel_flip_ne; [done|]. by intros ->.
Qed.

(** X30: with coordinate registers X and Y other than VF and the whole
    8 x N sprite inside the display (Vx + 8 <= 64, Vy + N <= 32), Dxyn
    XORs the sprite onto the display: the pixel of column Vx + col and row
    Vy + row is inverted when bit col (from the left) of the byte at
    I + row is set and keeps its value otherwise, no other display entry
    changes, and VF ends as 1 exactly when a set sprite bit met a lit
    pixel. *)
Theorem draw_inside_is_xor X Y N rand s :
  nibble X → nibble Y → nibble N → X ≠ 0xf → Y ≠ 0xf →
  length (v s) = 16%nat →
  0 ≤ reg s X → reg s X + 8 ≤ 64 → 0 ≤ reg s Y → reg s Y + N ≤ 32 →
  ∃ s', executeInstruction (instr 0xd X Y N) rand s = Return s' ∧
    (∀ row col, 0 ≤ row < N → 0 ≤ col < 8 →
       pixel (display (renderer s')) (reg s X + col + 64 * (reg s Y + row))
       = Z.lxor (pixel (display (renderer s))
                       (reg s X + col + 64 * (reg s Y + row)))
                (if sprite_bit (mem s (i s + row)) col then 1 else 0)) ∧
    (∀ p, (∀ row col, 0 ≤ row < N → 0 ≤ col < 8 →
                      p ≠ reg s X + col + 64 * (reg s Y + row)) →
          pixel (display (renderer s')) p = pixel (display (renderer s)) p) ∧
    (reg s' 0xf = 1 ↔
     ∃ row col, 0 ≤ row < N ∧ 0 ≤ col < 8 ∧
                sprite_bit (mem s (i s + row)) col = true ∧
                pixel (display (renderer s))
                      (reg s X + col + 64 * (reg s Y + row)) = 1).
Proof.
  intros HX HY HN HXf HYf Hlen Hx0 Hx8 Hy0 HyN.
  rewrite executeInstruction_draw by done.
  eexists. split; [reflexivity|].
  rewrite draw_with_blit by done.
  assert (HNdec : Z.land (instr 0xd X Y N) 0xf = N).
  { by destruct (decode 0xd X Y N) as (_ & _ & _ & -> & _);
      [unfold nibble; lia|..]. }
  rewrite HNdec.
  set (ps := sprite_points (advance s) X Y (seqZ 0 N)).
  set (d0 := display (renderer (advance s))).
  change (display (renderer s)) with d0.
  assert (Hnd : NoDup ps).
  { apply NoDup_sprite_points; [apply NoDup_seqZ|done|done|].
    intros row Hrow%elem_of_seqZ. rewrite reg_advance. lia. }
  assert (Hin : ∀ p, p ∈ ps ↔
            ∃ row col, 0 ≤ row < N ∧ 0 ≤ col < 8 ∧
                       sprite_bit (mem s (i s + row)) col = true ∧
                       p = reg s X + col + 64 * (reg s Y + row)).
  { intros p. split.
    - intros (row & col & Hrow%elem_of_seqZ & Hcol & Hbit & ->)
        %sprite_points_origin.
      exists row, col. rewrite !reg_advance.
      rewrite pixel_index_inside by lia.
      split; [lia|]. split; [done|]. split; [exact Hbit|lia].
    - intros (row & col & Hrow & Hcol & Hbit & ->).
      replace (reg s X + col + 64 * (reg s Y + row))
        with (pixel_index (reg (advance s) X + col)
                          (reg (advance s) Y + row))
        by (rewrite !reg_advance, pixel_index_inside by lia; lia).
      by apply sprite_points_elem. }
  assert (Hpix : ∀ p, pixel (blit ps (d0, false)).1 p
                      = if odd_hits p ps then Z.lxor (pixel d0 p) 1
                        else pixel d0 p).
  { intros p. rewrite blit_display. apply pixel_flips. }
  change (display (renderer (with_blit (advance s) (blit ps (d0, false)))))
    with (blit ps (d0, false)).1.
  split; [|split].
  - intros row col Hrow Hcol. rewrite Hpix.
    destruct (sprite_bit (mem s (i s + row)) col) eqn:Hbit.
    + assert (Hodd : odd_hits (reg s X + col + 64 * (reg s Y + row)) ps
                     = true).
      { apply odd_hits_NoDup; [done|]. apply Hin. by exists row, col. }
      by rewrite Hodd.
    + destruct (odd_hits _ ps) eqn:Hodd; [|by rewrite Z.lxor_0_r].
      apply odd_hits_NoDup in Hodd; [|done].
      apply Hin in Hodd as (row' & col' & Hrow' & Hcol' & Hbit' & Heq).
      assert (row' = row ∧ col' = col) as [-> ->] by lia.
      congruence.
  - intros p Hp. rewrite Hpix.
    destruct (odd_hits p ps) eqn:Hodd; [|done].
    apply odd_hits_NoDup in Hodd; [|done].
    apply Hin in Hodd as (row & col & Hrow & Hcol & _ & ->).
    by destruct (Hp row col Hrow Hcol).
  - rewrite flag_with_blit by done.
    split.
    + intros Hflag.
      destruct (blit ps (d0, false)).2 eqn:Hb; [|done].
      destruct (proj1 (blit_flag_NoDup ps d0 false Hnd) Hb)
        as [?|(p & Hp & Hlit)]; [done|].
      apply Hin in Hp as (row & col & Hrow & Hcol & Hbit & ->).
      by exists row, col.
    + intros (row & col & Hrow & Hcol & Hbit & Hlit).
      assert (Hb : (blit ps (d0, false)).2 = true).
      { apply blit_flag_NoDup; [done|]. right.
        exists (reg s X + col + 64 * (reg s Y + row)). split; [|done].
        apply Hin. by exists row, col. }
      by rewrite Hb.
Qed.

Lemma draw_inside_is_xor_witness :
  ∃ s', executeInstruction (instr 0xd 0 1 5) 0 (boot []) = Return s' ∧
    (∀ row col, 0 ≤ row < 5 → 0 ≤ col < 8 →
       pixel (display (renderer s'))
             (reg (boot []) 0 + col + 64 * (reg (boot []) 1 + row))
       = Z.lxor (pixel (display (renderer (boot [])))
                       (reg (boot []) 0 + col + 64 * (reg (boot []) 1 + row)))
                (if sprite_bit (mem (boot []) (i (boot []) + row)) col
                 then 1 else 0)) ∧
    (∀ p, (∀ row col, 0 ≤ row < 5 → 0 ≤ col < 8 →
                      p ≠ reg (boot []) 0 + col
                          + 64 * (reg (boot []) 1 + row)) →
          pixel (display (renderer s')) p
          = pixel (display (renderer (boot []))) p) ∧
    (reg s' 0xf = 1 ↔
     ∃ row col, 0 ≤ row < 5 ∧ 0 ≤ col < 8 ∧
                sprite_bit (mem (boot []) (i (boot []) + row)) col = true ∧
                pixel (display (renderer (boot [])))
                      (reg (boot []) 0 + col
                       + 64 * (reg (boot []) 1 + row)) = 1).
Proof.
  apply (draw_inside_is_xor 0 1 5 0 (boot []));
    [unfold nibble; lia | unfold nibble; lia | unfold nibble; lia
    | lia | lia | vm_compute; reflexivity
    | vm_compute; discriminate | vm_compute; discriminate
    | vm_compute; discriminate | vm_compute; discriminate].
Defined.
